(** * Server-side conversion tracking: hashing, validation, request and retry

    A shallow embedding of the utility module (hashing, normalisation,
    configuration validation, [retry]) and of the [MetaConversionTracker]
    class of the multi-platform tracking SDK, with the properties of its
    specification stated and proved over it.

    Conventions of the embedding.
    - A JavaScript object used as a record or dictionary is a [gmap] from
      property names to values; an absent property and a property holding
      [undefined] are both read as [JUndefined].
    - JavaScript numbers are rationals ([Q]); [NaN] and the infinities are
      outside the model.
    - Strings are Rocq strings, one character per code unit; the case and
      white-space functions are the ASCII ones.
    - Everything the code obtains from its host (the clock, [Math.random],
      [fetch], the [https] and [crypto] modules) is read from an [Env] of
      oracles; what the code does to its host (requests issued, timers
      awaited) is recorded in a [World] that is threaded through a small
      state-and-exception monad.  [console] output is not recorded. *)

From Stdlib Require Import QArith Qround ZArith String Ascii List Lia Lqa.
From Stdlib Require Import HexadecimalString DecimalString.
From stdpp Require Import gmap strings list fin_maps.

Set Warnings "-register-all".
Local Open Scope string_scope.

(** ** JavaScript values *)

Inductive jsval : Type :=
| JUndefined
| JNull
| JBool (b : bool)
| JNum (q : Q)
| JStr (s : string)
| JArr (l : list jsval)
| JObj (m : gmap string jsval)
| JPromise (v : jsval)
    (* a promise that resolves to [v] *).

(** ToBoolean: the values that an [if], [!], [&&] or [||] treats as false
    are [undefined], [null], [false], [0] and the empty string. *)
Definition truthy (v : jsval) : bool :=
  match v with
  | JUndefined | JNull => false
  | JBool b => b
  | JNum q => negb (Qeq_bool q 0)
  | JStr s => negb (String.eqb s "")
  | JArr _ | JObj _ | JPromise _ => true
  end.

(** [a || b] *)
Definition js_or (a b : jsval) : jsval := if truthy a then a else b.

(** [o.k] on an object; a missing property reads as [undefined]. *)
Definition prop (o : gmap string jsval) (k : string) : jsval :=
  default JUndefined (o !! k).

(** [typeof v === 'string'] *)
Definition is_string (v : jsval) : bool :=
  match v with JStr _ => true | _ => false end.

(** Optional string fields of the typed interfaces ([email?: string]) are
    [option string]; such a field is truthy when present and non-empty. *)
Definition nonempty (s : string) : bool := negb (String.eqb s "").

Definition truthy_str (o : option string) : bool :=
  match o with Some s => nonempty s | None => false end.

(** ** Strings *)

Definition toLowerCase_ascii (c : ascii) : ascii :=
  let n := nat_of_ascii c in
  if (65 <=? n)%nat && (n <=? 90)%nat then ascii_of_nat (n + 32) else c.

Fixpoint toLowerCase (s : string) : string :=
  match s with
  | EmptyString => EmptyString
  | String c s' => String (toLowerCase_ascii c) (toLowerCase s')
  end.

Fixpoint trimStart (s : string) : string :=
  match s with
  | EmptyString => EmptyString
  | String c s' => if Ascii.is_space c then trimStart s' else s
  end.

Definition trimEnd (s : string) : string :=
  String.rev (trimStart (String.rev s)).

Definition trim (s : string) : string := trimEnd (trimStart s).

Definition is_digit (c : ascii) : bool :=
  match Ascii.is_nat c with Some _ => true | None => false end.

Fixpoint string_filter (f : ascii -> bool) (s : string) : string :=
  match s with
  | EmptyString => EmptyString
  | String c s' =>
      if f c then String c (string_filter f s') else string_filter f s'
  end.

Fixpoint string_forallb (f : ascii -> bool) (s : string) : bool :=
  match s with
  | EmptyString => true
  | String c s' => f c && string_forallb f s'
  end.

(** [s.replace(/\D/g, '')] *)
Definition digits_only (s : string) : string := string_filter is_digit s.

(** [n.toString(16)] and [String(n)] for a natural number. *)
Definition to_hex (n : N) : string :=
  HexadecimalString.NilZero.string_of_uint (N.to_hex_uint n).

Definition to_decimal (n : N) : string :=
  DecimalString.NilZero.string_of_uint (N.to_uint n).

(** [arr.join(sep)] on strings. *)
Fixpoint join (sep : string) (l : list string) : string :=
  match l with
  | [] => ""
  | [s] => s
  | s :: rest => s ++ sep ++ join sep rest
  end.

(** ** Thrown values *)

Inductive thrown : Type :=
| ThrownUndefined
    (* [throw lastError!] when no attempt was ever made *)
| ErrorObj (name message : string)
    (* [new Error(message)], and the host's TypeError and SyntaxError *)
| TrackingError (message : string) (code : option string)
                (details : option thrown).

(** [error instanceof Error ? error.message : 'Unknown error'] *)
Definition error_message (e : thrown) : string :=
  match e with
  | ThrownUndefined => "Unknown error"
  | ErrorObj _ m => m
  | TrackingError m _ _ => m
  end.

Definition error_code (e : thrown) : option string :=
  match e with
  | TrackingError _ c _ => c
  | _ => None
  end.

Definition createTrackingError (message : string) (code : option string)
    (details : option thrown) : thrown :=
  TrackingError message code details.

(** ** The host environment *)

(** What [fetch] hands back: the response's [ok], [status] and
    [statusText], and the outcome of [response.json()], which rejects with
    the host's error when the body is not JSON. *)
Record Response : Type := {
  ok : bool;
  status : N;
  statusText : string;
  json : thrown + jsval
}.

Inductive FetchOutcome : Type :=
| FetchRejects (e : thrown)
| FetchResolves (r : Response).

(** What [https.request] ends with: an ['error'] event, or a complete
    reply with its status code, its body text and what [JSON.parse] makes
    of that text ([None] when it throws). *)
Inductive HttpsOutcome : Type :=
| HttpsError (e : thrown)
| HttpsReply (statusCode : option N) (data : string) (parsed : option jsval).

Record Env : Type := {
  (* [process.versions.node] is defined (and then a non-empty string) *)
  node : bool;
  (* [require('crypto').createHash('sha256').update(s).digest('hex')];
     [None] when [require] is missing or the call throws *)
  node_sha256 : option (string -> string);
  (* [crypto.subtle.digest('SHA-256', ..)] rendered in hex; [None] when
     there is no [crypto.subtle], an inner [None] when the digest rejects *)
  subtle_sha256 : option (string -> option string);
  (* the outcome of the n-th call of [fetch]; a host without [fetch]
     makes every call fail *)
  fetch : nat -> FetchOutcome;
  (* what [requireFunc('https')] / [requireFunc('url')] throws, if it does *)
  require_https_fails : option thrown;
  (* the outcome of the n-th [https.request] *)
  https_request : nat -> HttpsOutcome;
  (* the n-th sample of [Math.random()], and that same sample as printed
     by [.toString(36).substr(2, 9)] *)
  math_random : nat -> Q;
  math_random_base36 : nat -> string;
  (* the n-th reading of [Date.now()], in milliseconds *)
  date_now : nat -> Z;
  (* [String(x)] for a number [x] *)
  number_to_string : Q -> string;
  (* [window.location.href] when there is a [window] *)
  window_href : option string
}.

(** ** Hashing (utils: hashData, hashDataSync) *)

(** ToInt32 *)
Definition to_int32 (z : Z) : Z := ((z + 2 ^ 31) mod 2 ^ 32 - 2 ^ 31)%Z.

(** [a << n] and [a & b] on numbers holding integers. *)
Definition js_shl (a : Z) (n : Z) : Z := to_int32 (Z.shiftl (to_int32 a) n).
Definition js_and (a b : Z) : Z := Z.land (to_int32 a) (to_int32 b).

Definition charCode (c : ascii) : Z := Z.of_nat (nat_of_ascii c).

(** The loop body of the fallback hash:
    [hash = (hash << 5) - hash + char; hash = hash & hash]. *)
Definition simple_hash_step (hash : Z) (c : ascii) : Z :=
  let hash := (js_shl hash 5 - hash + charCode c)%Z in
  js_and hash hash.

Fixpoint simple_hash_loop (hash : Z) (s : string) : Z :=
  match s with
  | EmptyString => hash
  | String c s' => simple_hash_loop (simple_hash_step hash c) s'
  end.

(** [Math.abs(hash).toString(16)] after the loop. *)
Definition simple_hash (normalizedData : string) : string :=
  to_hex (Z.to_N (Z.abs (simple_hash_loop 0 normalizedData))).

(** The digest that [hashDataSync] applies to the normalised text: Node's
    SHA-256 when running under Node and the module loads, the simple hash
    otherwise. *)
Definition digest_sync (env : Env) (normalizedData : string) : string :=
  if node env then
    match node_sha256 env with
    | Some sha => sha normalizedData
    | None => simple_hash normalizedData
    end
  else simple_hash normalizedData.

Definition hashDataSync (env : Env) (data : jsval) : string :=
  match data with
  | JStr s =>
      if negb (nonempty s) then ""
      else digest_sync env (trim (toLowerCase s))
  | _ => ""
  end.

(** The digest of the asynchronous [hashData]: Node's SHA-256, else
    SubtleCrypto, else the simple hash; each stage falls through to the
    next when it is unavailable or throws. *)
Definition digest_async (env : Env) (normalizedData : string) : string :=
  let browser :=
    match subtle_sha256 env with
    | Some subtle =>
        match subtle normalizedData with
        | Some hex => hex
        | None => simple_hash normalizedData
        end
    | None => simple_hash normalizedData
    end in
  if node env then
    match node_sha256 env with
    | Some sha => sha normalizedData
    | None => browser
    end
  else browser.

(** The value the promise returned by [hashData] resolves to. *)
Definition hashData (env : Env) (data : jsval) : string :=
  match data with
  | JStr s =>
      if negb (nonempty s) then ""
      else digest_async env (trim (toLowerCase s))
  | _ => ""
  end.

(** ** Normalisation of user data (utils: normalizeUserData) *)

(** [UserData] is an interface of optional string fields; an instance is
    the finite map from the names of the fields that are set to their
    values. *)
Abbreviation UserData := (gmap string string).

(** [if (normalized.k) normalized.k = hashDataSync(pre(normalized.k))] *)
Definition hash_field (env : Env) (k : string) (pre : string -> string)
    (normalized : UserData) : UserData :=
  match normalized !! k with
  | Some v =>
      if nonempty v then <[k := hashDataSync env (JStr (pre v))]> normalized
      else normalized
  | None => normalized
  end.

Definition normalizeUserData (env : Env) (userData : UserData) : UserData :=
  let normalized := userData in
  let normalized := hash_field env "email" id normalized in
  let normalized := hash_field env "phone" digits_only normalized in
  let normalized := hash_field env "firstName" id normalized in
  let normalized := hash_field env "lastName" id normalized in
  let normalized := hash_field env "externalId" id normalized in
  let normalized := hash_field env "zipCode" id normalized in
  let normalized := hash_field env "city" id normalized in
  let normalized := hash_field env "state" toLowerCase normalized in
  let normalized := hash_field env "country" toLowerCase normalized in
  normalized.

(** ** Configuration validation (utils) *)

(** [/^\d{15,16}$/.test(pixelId)] *)
Definition isValidPixelId (pixelId : string) : bool :=
  string_forallb is_digit pixelId
  && ((String.length pixelId =? 15)%nat || (String.length pixelId =? 16)%nat).

(** [typeof accessToken === 'string' && accessToken.length > 50] *)
Definition isValidAccessToken (accessToken : jsval) : bool :=
  match accessToken with
  | JStr s => (50 <? String.length s)%nat
  | _ => false
  end.

Definition toUpperCase_ascii (c : ascii) : ascii :=
  let n := nat_of_ascii c in
  if (97 <=? n)%nat && (n <=? 122)%nat then ascii_of_nat (n - 32) else c.

Fixpoint toUpperCase (s : string) : string :=
  match s with
  | EmptyString => EmptyString
  | String c s' => String (toUpperCase_ascii c) (toUpperCase s')
  end.

Definition validCurrencies : list string :=
  ["USD"; "EUR"; "GBP"; "CAD"; "AUD"; "JPY"; "CNY"; "INR"; "BDT"; "PKR";
   "NGN"; "KES"; "ZAR"; "EGP"; "AED"; "SAR"; "BRL"; "MXN"; "RUB"; "TRY";
   "KRW"; "SGD"; "HKD"; "NZD"].

(** [arr.includes(s)] *)
Definition includes (arr : list string) (s : string) : bool :=
  existsb (String.eqb s) arr.

Definition isValidCurrency (currency : string) : bool :=
  includes validCurrencies (toUpperCase currency).

Record ValidationResult : Type := {
  isValid : bool;
  errors : list string;
  warnings : list string
}.

(** [k in config] *)
Definition has_key (config : gmap string jsval) (k : string) : bool :=
  bool_decide (is_Some (config !! k)).

Definition validateConfig (config : gmap string jsval) : ValidationResult :=
  let errors : list string := [] in
  let warnings : list string := [] in
  let errors :=
    if negb (truthy (prop config "pixelId")) then
      (errors ++ ["Pixel ID is required"])%list
    else
      match prop config "pixelId" with
      | JStr pixelId =>
          if negb (isValidPixelId pixelId)
          then (errors ++ ["Invalid Pixel ID format"])%list else errors
      | _ => errors
      end in
  let errors :=
    if has_key config "accessToken"
       && truthy (prop config "accessToken")
       && is_string (prop config "accessToken")
       && negb (isValidAccessToken (prop config "accessToken"))
    then (errors ++ ["Invalid access token format"])%list else errors in
  let warnings :=
    if has_key config "currency"
       && truthy (prop config "currency")
       && match prop config "currency" with
          | JStr currency => negb (isValidCurrency currency)
          | _ => false
          end
    then (warnings ++ ["Unsupported currency code"])%list else warnings in
  {| isValid := (length errors =? 0)%nat; errors := errors; warnings := warnings |}.

(** ** The world and the monad of effects *)

(** One outgoing request: where it went and the events it carried (the
    [data] member of the request body). *)
Record Request : Type := {
  url : string;
  data : list jsval
}.

Record World : Type := {
  (* the [fetch] calls and the [https.request] calls made, oldest first *)
  fetch_log : list Request;
  https_log : list Request;
  (* how often [Math.random()] and [Date.now()] were read *)
  random_reads : nat;
  clock_reads : nat;
  (* the delays of the timers awaited, oldest first *)
  timers : list Q;
  (* how often a caller-supplied callback was invoked *)
  callback_calls : nat
}.

Definition world0 : World := {|
  fetch_log := []; https_log := []; random_reads := 0; clock_reads := 0;
  timers := []; callback_calls := 0 |}.

(** The number of network calls made so far. *)
Definition network_calls (w : World) : nat :=
  length (fetch_log w) + length (https_log w).

(** An asynchronous computation: it runs in a world and either throws
    (rejects) or returns (resolves), leaving a new world. *)
Definition M (A : Type) : Type := World -> (thrown + A) * World.

#[global] Instance M_ret : MRet M := fun A a w => (inr a, w).

#[global] Instance M_bind : MBind M := fun A B f m w =>
  match m w with
  | (inl e, w') => (inl e, w')
  | (inr a, w') => f a w'
  end.

Definition throw {A : Type} (e : thrown) : M A := fun w => (inl e, w).

(** [try { m } catch (error) { handler(error) }] *)
Definition try_catch {A : Type} (m : M A) (handler : thrown -> M A) : M A :=
  fun w =>
    match m w with
    | (inl e, w') => handler e w'
    | (inr a, w') => (inr a, w')
    end.

(** A synchronous step that may throw. *)
Definition lift {A : Type} (r : thrown + A) : M A := fun w => (r, w).

Section Host.
Variable env : Env.

(** [Date.now()] *)
Definition Date_now : M Z := fun w =>
  (inr (date_now env (clock_reads w)),
   {| fetch_log := fetch_log w; https_log := https_log w;
      random_reads := random_reads w; clock_reads := S (clock_reads w);
      timers := timers w; callback_calls := callback_calls w |}).

Definition next_random (w : World) : World :=
  {| fetch_log := fetch_log w; https_log := https_log w;
     random_reads := S (random_reads w); clock_reads := clock_reads w;
     timers := timers w; callback_calls := callback_calls w |}.

(** [Math.random()] *)
Definition Math_random : M Q := fun w =>
  (inr (math_random env (random_reads w)), next_random w).

(** [Math.random().toString(36).substr(2, 9)] *)
Definition Math_random_base36 : M string := fun w =>
  (inr (math_random_base36 env (random_reads w)), next_random w).

(** [await new Promise((resolve) => setTimeout(resolve, ms))] *)
Definition sleep (ms : Q) : M unit := fun w =>
  (inr tt,
   {| fetch_log := fetch_log w; https_log := https_log w;
      random_reads := random_reads w; clock_reads := clock_reads w;
      timers := timers w ++ [ms]; callback_calls := callback_calls w |}).

(** [await fetch(url, options)] *)
Definition fetch_call (req : Request) : M Response := fun w =>
  let w' :=
    {| fetch_log := fetch_log w ++ [req]; https_log := https_log w;
       random_reads := random_reads w; clock_reads := clock_reads w;
       timers := timers w; callback_calls := callback_calls w |} in
  match fetch env (length (fetch_log w)) with
  | FetchRejects e => (inl e, w')
  | FetchResolves r => (inr r, w')
  end.

(** [https.request(..)], written to and ended; the result is how the
    exchange finishes. *)
Definition https_call (req : Request) : M HttpsOutcome := fun w =>
  (inr (https_request env (length (https_log w))),
   {| fetch_log := fetch_log w; https_log := https_log w ++ [req];
      random_reads := random_reads w; clock_reads := clock_reads w;
      timers := timers w; callback_calls := callback_calls w |}).

(** *** utils: retry

    The loop [for (let i = 0; i <= maxRetries; i++)] runs on the number
    of iterations that remain, [maxRetries + 1 - i]; when none remains
    the loop is left and the statement after it throws [lastError]. *)
Fixpoint retry_from {T : Type} (fn : M T) (maxRetries : Z) (delay : Q)
    (remaining : nat) (i : Z) (lastError : thrown) : M T :=
  match remaining with
  | O => throw lastError
  | S remaining' =>
      try_catch fn (fun error =>
        let lastError := error in
        if (i =? maxRetries)%Z then throw lastError
        else
          r ← Math_random;
          let backoffDelay := (delay * inject_Z (2 ^ i) + r * 1000)%Q in
          sleep backoffDelay;;
          retry_from fn maxRetries delay remaining' (i + 1)%Z lastError)
  end.

Definition retry {T : Type} (fn : M T) (maxRetries : Z) (delay : Q) : M T :=
  retry_from fn maxRetries delay (Z.to_nat (maxRetries + 1)) 0%Z
             ThrownUndefined.

(** *** utils: generateEventId, getCurrentTimestamp *)

Definition Z_to_string (z : Z) : string :=
  if (z <? 0)%Z then "-" ++ to_decimal (Z.to_N (- z))
  else to_decimal (Z.to_N z).

Definition generateEventId (prefix : string) : M string :=
  timestamp ← Date_now;
  random ← Math_random_base36;
  mret (prefix ++ "_" ++ Z_to_string timestamp ++ "_" ++ random).

(** [Math.floor(Date.now() / 1000)] *)
Definition getCurrentTimestamp : M Z :=
  now ← Date_now;
  mret (now / 1000)%Z.

End Host.

(** A caller-supplied callback as seen from outside: its k-th invocation
    ends as [outcome k] says, and every invocation is counted. *)
Definition callback {T : Type} (outcome : nat -> thrown + T) : M T := fun w =>
  (outcome (callback_calls w),
   {| fetch_log := fetch_log w; https_log := https_log w;
      random_reads := random_reads w; clock_reads := clock_reads w;
      timers := timers w; callback_calls := S (callback_calls w) |}).

(** ** Reading and printing values *)

(** [v.k] for the property names the tracker reads ([error], [message],
    [events_received], ...): reading from [null] or [undefined] throws, a
    value that is not an object has no such property. *)
Definition get (v : jsval) (k : string) : thrown + jsval :=
  match v with
  | JUndefined =>
      inl (ErrorObj "TypeError"
             ("Cannot read properties of undefined (reading '" ++ k ++ "')"))
  | JNull =>
      inl (ErrorObj "TypeError"
             ("Cannot read properties of null (reading '" ++ k ++ "')"))
  | JObj m => inr (prop m k)
  | _ => inr JUndefined
  end.

(** [v?.k] *)
Definition get_optional (v : jsval) (k : string) : jsval :=
  match v with
  | JObj m => prop m k
  | _ => JUndefined
  end.

(** [`${v}`] *)
Fixpoint js_string (show : Q -> string) (v : jsval) : string :=
  match v with
  | JUndefined => "undefined"
  | JNull => "null"
  | JBool true => "true"
  | JBool false => "false"
  | JNum q => show q
  | JStr s => s
  | JArr l =>
      join ","
        (map (fun x => match x with
                       | JUndefined | JNull => ""
                       | _ => js_string show x
                       end) l)
  | JObj _ => "[object Object]"
  | JPromise _ => "[object Promise]"
  end.

(** ** The tracker: data *)

Record ContentItem : Type := {
  content_id : string;
  quantity : option Q;
  itemPrice : option Q;
  title : option string;
  category : option string;
  brand : option string
}.

Record CustomData : Type := {
  value : option Q;
  currency : option string;
  contentName : option string;
  contentCategory : option string;
  contentIds : option (list string);
  contents : option (list ContentItem);
  contentType : option string;
  orderId : option string;
  searchString : option string;
  status_ : option string;
  numItems : option Q;
  deliveryCategory : option string;
  customProperties : option (gmap string jsval)
}.

(** [{}] as a [CustomData] *)
Definition emptyCustomData : CustomData := {|
  value := None; currency := None; contentName := None;
  contentCategory := None; contentIds := None; contents := None;
  contentType := None; orderId := None; searchString := None;
  status_ := None; numItems := None; deliveryCategory := None;
  customProperties := None |}.

Record ServerEventData : Type := {
  eventName : string;
  eventTime : option Q;
  eventId : option string;
  eventSourceUrl : option string;
  actionSource : option string;
  userData : option UserData;
  customData : option CustomData;
  optOut : option bool;
  dataProcessingOptions : option (list string);
  dataProcessingOptionsCountry : option Q;
  dataProcessingOptionsState : option Q
}.

Record EventResponse : Type := {
  eventsReceived : jsval;
  events_received : jsval;
  messages : jsval;
  fbtrace_id : jsval;
  response_id : jsval;
  numProcessedEntries : jsval
}.

(** The private state of a [MetaConversionTracker]. *)
Record Tracker : Type := {
  config : gmap string jsval;
  retryAttempts : Z;
  retryDelay : Q;
  baseUrl : string
}.

(** An optional number or string as a property value. *)
Definition of_num (o : option Q) : jsval :=
  match o with Some q => JNum q | None => JUndefined end.

Definition of_str (o : option string) : jsval :=
  match o with Some s => JStr s | None => JUndefined end.

(** [if (cond) obj.k = v] *)
Definition set_if (cond : bool) (k : string) (v : jsval)
    (obj : gmap string jsval) : gmap string jsval :=
  if cond then <[k := v]> obj else obj.

(** ** The tracker: building the wire event *)

Definition hashedFields : list (string * string) :=
  [("email", "em"); ("phone", "ph"); ("firstName", "fn"); ("lastName", "ln");
   ("dateOfBirth", "db"); ("gender", "ge"); ("city", "ct"); ("state", "st");
   ("country", "country"); ("zipCode", "zp");
   ("f5first", "f5first"); ("f5last", "f5last"); ("fi", "fi");
   ("dobd", "dobd"); ("dobm", "dobm"); ("doby", "doby")].

Definition plainFields : list (string * string) :=
  [("externalId", "external_id"); ("clientIpAddress", "client_ip_address");
   ("clientUserAgent", "client_user_agent"); ("fbc", "fbc"); ("fbp", "fbp");
   ("subscriptionId", "subscription_id"); ("fbLoginId", "fb_login_id");
   ("leadId", "lead_id")].

(** [if (normalizedData.src) userDataObj.dst = wrap(normalizedData.src)] *)
Definition copy_field (wrap : string -> jsval) (normalizedData : UserData)
    (userDataObj : gmap string jsval) (field : string * string)
    : gmap string jsval :=
  match normalizedData !! field.1 with
  | Some v => if nonempty v then <[field.2 := wrap v]> userDataObj
              else userDataObj
  | None => userDataObj
  end.

(** [createUserData]: the fields of [hashedFields] are set to the promise
    that [hashData] returns (it is not awaited), those of [plainFields] to
    the normalised value itself. *)
Definition createUserData (env : Env) (userData : UserData)
    : gmap string jsval :=
  let normalizedData := normalizeUserData env userData in
  let userDataObj : gmap string jsval := ∅ in
  let userDataObj :=
    foldl (copy_field (fun v => JPromise (JStr (hashData env (JStr v))))
                      normalizedData) userDataObj hashedFields in
  foldl (copy_field JStr normalizedData) userDataObj plainFields.

Definition wire_content (content : ContentItem) : jsval :=
  let item : gmap string jsval :=
    <["id" := JStr (content_id content)]>
   (<["quantity" := js_or (of_num (quantity content)) (JNum 1)]>
   (<["item_price" := of_num (itemPrice content)]> ∅)) in
  let item := set_if (truthy_str (title content)) "title"
                     (of_str (title content)) item in
  let item := set_if (truthy_str (category content)) "category"
                     (of_str (category content)) item in
  let item := set_if (truthy_str (brand content)) "brand"
                     (of_str (brand content)) item in
  JObj item.

Definition reservedFields : list string :=
  ["value"; "currency"; "content_name"; "content_category"; "content_ids";
   "content_type"; "order_id"; "search_string"; "num_items"; "status";
   "delivery_category"; "contents"].

Definition createCustomData (customData : CustomData) : gmap string jsval :=
  let o : gmap string jsval := ∅ in
  let o := set_if (bool_decide (is_Some (value customData))) "value"
                  (of_num (value customData)) o in
  let o := set_if (truthy_str (currency customData)) "currency"
                  (of_str (currency customData)) o in
  let o := set_if (truthy_str (contentName customData)) "content_name"
                  (of_str (contentName customData)) o in
  let o := set_if (truthy_str (contentCategory customData)) "content_category"
                  (of_str (contentCategory customData)) o in
  let o := match contentIds customData with
           | Some ids => <["content_ids" := JArr (map JStr ids)]> o
           | None => o
           end in
  let o := set_if (truthy_str (contentType customData)) "content_type"
                  (of_str (contentType customData)) o in
  let o := set_if (truthy_str (orderId customData)) "order_id"
                  (of_str (orderId customData)) o in
  let o := set_if (truthy_str (searchString customData)) "search_string"
                  (of_str (searchString customData)) o in
  let o := set_if (bool_decide (is_Some (numItems customData))) "num_items"
                  (of_num (numItems customData)) o in
  let o := set_if (truthy_str (status_ customData)) "status"
                  (of_str (status_ customData)) o in
  let o := set_if (truthy_str (deliveryCategory customData))
                  "delivery_category"
                  (of_str (deliveryCategory customData)) o in
  let o := match contents customData with
           | Some items => <["contents" := JArr (map wire_content items)]> o
           | None => o
           end in
  match customProperties customData with
  | Some props =>
      filter (fun kv => includes reservedFields kv.1 = false) props ∪ o
  | None => o
  end.

(** ** The tracker: the response *)

(** The first read, [resp.events_received], throws when the response is
    [null] or [undefined]; once it has succeeded the later reads cannot
    throw. *)
Definition transformResponse (response : jsval) : thrown + EventResponse :=
  match get response "events_received" with
  | inl e => inl e
  | inr received =>
      let eventsReceived := js_or received (JNum 0) in
      inr {| eventsReceived := eventsReceived;
             events_received := eventsReceived;
             messages := js_or (get_optional response "messages") (JArr []);
             fbtrace_id := get_optional response "fbtrace_id";
             response_id := get_optional response "id";
             numProcessedEntries :=
               js_or (get_optional response "num_processed_entries")
                     (JNum 0) |}
  end.

(** ** The tracker: validation, requests and sending *)

Definition validActionSources : list string :=
  ["email"; "website"; "phone_call"; "chat"; "physical_store";
   "system_generated"; "business_messaging"; "other"].

(** [a < b] and [a > b] on numbers *)
Definition js_lt (a b : Q) : bool := negb (Qle_bool b a).
Definition js_gt (a b : Q) : bool := negb (Qle_bool a b).

Definition validation_error (message : string) : thrown :=
  createTrackingError message (Some "VALIDATION_ERROR") None.

Section Tracker.
Variable env : Env.

(** The event-name catalogue only feeds a [console.warn] in debug mode,
    which the model does not record. *)
Definition validateServerEventData (this : Tracker)
    (eventData : ServerEventData) : M unit :=
  if negb (nonempty (eventName eventData)) then
    throw (validation_error "Event name is required")
  else if truthy_str (actionSource eventData)
          && negb (includes validActionSources
                     (default "" (actionSource eventData))) then
    throw (validation_error
             ("Invalid action source: "
              ++ default "" (actionSource eventData)))
  else
    let bad_time :=
      validation_error
        "Event time must be a valid Unix timestamp within reasonable bounds"
    in
    match eventTime eventData with
    | Some t =>
        if truthy (JNum t) then
          if js_lt t 1000000000 then throw bad_time
          else
            now ← Date_now env;
            if js_gt t (inject_Z now / 1000 + 3600)%Q then throw bad_time
            else mret tt
        else mret tt
    | None => mret tt
    end.

Definition createServerEvent (this : Tracker) (eventData : ServerEventData)
    : M (gmap string jsval) :=
  event_time ←
    match eventTime eventData with
    | Some t => if truthy (JNum t) then mret (JNum t)
                else now ← getCurrentTimestamp env; mret (JNum (inject_Z now))
    | None => now ← getCurrentTimestamp env; mret (JNum (inject_Z now))
    end;
  event_id ←
    (if truthy_str (eventId eventData)
     then mret (default "" (eventId eventData))
     else generateEventId env "event");
  let action_source :=
    if truthy_str (actionSource eventData)
    then default "" (actionSource eventData) else "website" in
  let event_source_url :=
    if truthy_str (eventSourceUrl eventData)
    then of_str (eventSourceUrl eventData)
    else of_str (window_href env) in
  let event : gmap string jsval :=
    <["event_name" := JStr (eventName eventData)]>
   (<["event_time" := event_time]>
   (<["event_id" := JStr event_id]>
   (<["action_source" := JStr action_source]>
   (<["event_source_url" := event_source_url]>
   (<["user_data" :=
        JObj (createUserData env (default ∅ (userData eventData)))]>
   (<["custom_data" :=
        JObj (createCustomData
                (default emptyCustomData (customData eventData)))]>
    ∅)))))) in
  let event := set_if (default false (optOut eventData)) "opt_out"
                      (JBool true) event in
  let event :=
    match dataProcessingOptions eventData with
    | Some options =>
        let event :=
          <["data_processing_options" := JArr (map JStr options)]> event in
        let event :=
          set_if (bool_decide
                    (is_Some (dataProcessingOptionsCountry eventData)))
                 "data_processing_options_country"
                 (of_num (dataProcessingOptionsCountry eventData)) event in
        set_if (bool_decide
                  (is_Some (dataProcessingOptionsState eventData)))
               "data_processing_options_state"
               (of_num (dataProcessingOptionsState eventData)) event
    | None => event
    end in
  mret event.

Definition api_error (error : thrown) : thrown :=
  createTrackingError ("API request failed: " ++ error_message error)
                      (Some "API_ERROR") (Some error).

(** [errorData.error?.message] *)
Definition remote_message (errorData : jsval) : thrown + jsval :=
  match get errorData "error" with
  | inl e => inl e
  | inr error => inr (get_optional error "message")
  end.

(** What follows the [fetch] inside [makeRequest]'s [try]. *)
Definition read_response (response : Response) : M jsval :=
  if negb (ok response) then
    let errorData :=
      match json response with inr v => v | inl _ => JObj ∅ end in
    message ← lift (remote_message errorData);
    throw (ErrorObj "Error"
             ("HTTP " ++ to_decimal (status response) ++ ": "
              ++ js_string (number_to_string env)
                   (js_or message (JStr (statusText response)))))
  else lift (json response).

Definition is_2xx (statusCode : option N) : bool :=
  match statusCode with
  | Some c => negb (c =? 0)%N && (200 <=? c)%N && (c <? 300)%N
  | None => false
  end.

Definition statusCode_string (statusCode : option N) : string :=
  match statusCode with Some c => to_decimal c | None => "undefined" end.

(** The ['end'] handler of the [https] fallback: it settles the promise
    that [makeRequest] returns. *)
Definition on_end (statusCode : option N) (data : string)
    (parsed : option jsval) : thrown + jsval :=
  let parse_failure :=
    inl (ErrorObj "Error" ("Failed to parse response: " ++ data)) in
  match parsed with
  | None => parse_failure
  | Some result =>
      if is_2xx statusCode then inr result
      else
        match remote_message result with
        | inl _ => parse_failure
        | inr message =>
            inl (ErrorObj "Error"
                   ("HTTP " ++ statusCode_string statusCode ++ ": "
                    ++ js_string (number_to_string env)
                         (js_or message (JStr data))))
        end
  end.

(** The fallback for older Node versions.  The promise it builds is
    returned, not awaited, so its rejection is not caught by
    [makeRequest]'s [catch]; a failing [requireFunc] throws inside the
    [try] and is caught. *)
Definition https_fallback (req : Request) : M jsval :=
  match require_https_fails env with
  | Some e => throw (api_error e)
  | None =>
      outcome ← https_call env req;
      match outcome with
      | HttpsError e => throw e
      | HttpsReply statusCode data parsed =>
          lift (on_end statusCode data parsed)
      end
  end.

(** The request body also carries the test event code, the access token,
    the partner agent and the signature; the model records the endpoint
    and the events. *)
Definition makeRequest (this : Tracker) (data : jsval) : M jsval :=
  let req := {| url := baseUrl this;
                data := match data with JArr l => l | _ => [data] end |} in
  let wrapped (m : M jsval) : M jsval :=
    try_catch m (fun error => throw (api_error error)) in
  if node env then
    fun w =>
      match fetch_call env req w with
      | (inr response, w') => wrapped (read_response response) w'
      | (inl _, w') => https_fallback req w'
      end
  else
    wrapped (response ← fetch_call env req; read_response response).

(** The closure that [sendEvent] and [sendBatchEvents] hand to [retry]:
    [async () => this.transformResponse(await this.makeRequest(data))]. *)
Definition attempt (this : Tracker) (data : jsval) : M EventResponse :=
  response ← makeRequest this data;
  lift (transformResponse response).

Definition sendEvent (this : Tracker) (eventData : ServerEventData)
    : M EventResponse :=
  validateServerEventData this eventData;;
  serverEvent ← createServerEvent this eventData;
  retry env (attempt this (JObj serverEvent))
        (retryAttempts this) (retryDelay this).

(** [events.forEach((event, index) => ..)] from position [index] on. *)
Fixpoint validate_each (this : Tracker) (events : list ServerEventData)
    (index : nat) : M unit :=
  match events with
  | [] => mret tt
  | event :: rest =>
      try_catch (validateServerEventData this event)
        (fun error =>
           throw (validation_error
                    ("Event " ++ to_decimal (N.of_nat index) ++ ": "
                     ++ error_message error)));;
      validate_each this rest (S index)
  end.

(** [events.map((event) => this.createServerEvent(event))] *)
Fixpoint createServerEvents (this : Tracker)
    (events : list ServerEventData) : M (list jsval) :=
  match events with
  | [] => mret []
  | event :: rest =>
      serverEvent ← createServerEvent this event;
      serverEvents ← createServerEvents this rest;
      mret (JObj serverEvent :: serverEvents)
  end.

Definition sendBatchEvents (this : Tracker) (events : list ServerEventData)
    : M EventResponse :=
  if (length events =? 0)%nat then
    throw (validation_error "Events array is required and cannot be empty")
  else if (1000 <? length events)%nat then
    throw (validation_error "Maximum 1000 events per batch allowed")
  else
    validate_each this events 0;;
    serverEvents ← createServerEvents this events;
    retry env (attempt this (JArr serverEvents))
          (retryAttempts this) (retryDelay this).

(** *** Construction and reconfiguration *)

Definition endpoint (config : gmap string jsval) : string :=
  "https://graph.facebook.com/"
  ++ js_string (number_to_string env) (prop config "apiVersion") ++ "/"
  ++ js_string (number_to_string env) (prop config "pixelId") ++ "/events".

Definition new_MetaConversionTracker (config : gmap string jsval)
    : thrown + Tracker :=
  let config : gmap string jsval :=
    config ∪ <["debug" := JBool false]> {["apiVersion" := JStr "v18.0"]} in
  let validation := validateConfig config in
  if negb (isValid validation) then
    inl (createTrackingError
           ("Invalid configuration: " ++ join ", " (errors validation))
           (Some "CONFIG_ERROR") None)
  else
    inr {| config := config; retryAttempts := 3; retryDelay := 1000;
           baseUrl := endpoint config |}.

(** [updateConfig] returns nothing; the result is what it throws, if
    anything, and the tracker as the call leaves it. *)
Definition updateConfig (this : Tracker) (newConfig : gmap string jsval)
    : option thrown * Tracker :=
  let this :=
    {| config := newConfig ∪ config this;
       retryAttempts := retryAttempts this; retryDelay := retryDelay this;
       baseUrl := baseUrl this |} in
  let this :=
    if truthy (prop newConfig "pixelId")
       || truthy (prop newConfig "apiVersion")
    then {| config := config this;
            retryAttempts := retryAttempts this;
            retryDelay := retryDelay this;
            baseUrl := endpoint (config this) |}
    else this in
  let validation := validateConfig (config this) in
  if negb (isValid validation) then
    (Some (createTrackingError
             ("Invalid configuration update: "
              ++ join ", " (errors validation))
             (Some "CONFIG_ERROR") None), this)
  else (None, this).

End Tracker.

(** ** Further utilities (utils: isValidPhone, isValidEmail) *)

Definition isValidPhone (phone : string) : bool :=
  let cleanPhone := digits_only phone in
  (7 <=? String.length cleanPhone)%nat && (String.length cleanPhone <=? 15)%nat.

(** Regular expressions without groups or look-around, as the patterns of
    this module are.  [regex_test r s] is [/^r$/.test(s)]: the whole of [s]
    has to match, which for such patterns does not depend on the order in
    which the engine tries the alternatives; the test runs on
    derivatives. *)
Inductive regex : Type :=
| RNone
| REps
| RClass (p : ascii -> bool)
| RSeq (r1 r2 : regex)
| RAlt (r1 r2 : regex)
| RStar (r : regex).

(** [r+] *)
Definition RPlus (r : regex) : regex := RSeq r (RStar r).

Fixpoint nullable (r : regex) : bool :=
  match r with
  | RNone => false
  | REps => true
  | RClass _ => false
  | RSeq r1 r2 => nullable r1 && nullable r2
  | RAlt r1 r2 => nullable r1 || nullable r2
  | RStar _ => true
  end.

Fixpoint derive (c : ascii) (r : regex) : regex :=
  match r with
  | RNone => RNone
  | REps => RNone
  | RClass p => if p c then REps else RNone
  | RSeq r1 r2 =>
      if nullable r1 then RAlt (RSeq (derive c r1) r2) (derive c r2)
      else RSeq (derive c r1) r2
  | RAlt r1 r2 => RAlt (derive c r1) (derive c r2)
  | RStar r1 => RSeq (derive c r1) (RStar r1)
  end.

Fixpoint regex_test (r : regex) (s : string) : bool :=
  match s with
  | EmptyString => nullable r
  | String c s' => regex_test (derive c r) s'
  end.

(** [[^\s@]] *)
Definition not_space_or_at (c : ascii) : bool :=
  negb (Ascii.is_space c) && negb (Ascii.eqb c "@").

Definition is_char (x : ascii) (c : ascii) : bool := Ascii.eqb c x.

(** [/^[^\s@]+@[^\s@]+\.[^\s@]+$/] *)
Definition emailRegex : regex :=
  RSeq (RPlus (RClass not_space_or_at))
    (RSeq (RClass (is_char "@"))
       (RSeq (RPlus (RClass not_space_or_at))
          (RSeq (RClass (is_char "."))
             (RPlus (RClass not_space_or_at))))).

Definition isValidEmail (email : string) : bool := regex_test emailRegex email.

(** [/^\d{15,16}$/], the pattern of [isValidPixelId], as a regex. *)
Fixpoint RRepeat (n : nat) (r : regex) : regex :=
  match n with
  | O => REps
  | S n' => RSeq r (RRepeat n' r)
  end.

Definition pixelIdRegex : regex :=
  RSeq (RRepeat 15 (RClass is_digit)) (RAlt REps (RClass is_digit)).

(** ** The tracker: connection test, quick tracking methods, getConfig *)

Record ConnectionDetails : Type := {
  details_eventsReceived : jsval;
  details_fbtrace_id : jsval;
  testMode : bool
}.

Record ConnectionResult : Type := {
  success : bool;
  details : option ConnectionDetails;
  error : option string
}.

Record AccessResult : Type := {
  valid : bool;
  permissions : option (list string);
  access_error : option string
}.

(** [{ ...base, ...extra }] on custom data: a field that [extra] sets
    wins. *)
Definition spread_custom (base extra : CustomData) : CustomData := {|
  value := value extra ∪ value base;
  currency := currency extra ∪ currency base;
  contentName := contentName extra ∪ contentName base;
  contentCategory := contentCategory extra ∪ contentCategory base;
  contentIds := contentIds extra ∪ contentIds base;
  contents := contents extra ∪ contents base;
  contentType := contentType extra ∪ contentType base;
  orderId := orderId extra ∪ orderId base;
  searchString := searchString extra ∪ searchString base;
  status_ := status_ extra ∪ status_ base;
  numItems := numItems extra ∪ numItems base;
  deliveryCategory := deliveryCategory extra ∪ deliveryCategory base;
  customProperties := customProperties extra ∪ customProperties base |}.

Section QuickMethods.
Variable env : Env.

(** [typeof window !== 'undefined' ? window.location.href
     : 'https://example.com'] *)
Definition page_url : string := default "https://example.com" (window_href env).

(** The event the quick methods send: a name, the page URL, user data and
    custom data, and nothing else. *)
Definition quick_event (name : string) (userData : option UserData)
    (customData : CustomData) : ServerEventData := {|
  eventName := name;
  eventTime := None;
  eventId := None;
  eventSourceUrl := Some page_url;
  actionSource := None;
  userData := Some (default ∅ userData);
  customData := Some customData;
  optOut := None;
  dataProcessingOptions := None;
  dataProcessingOptionsCountry := None;
  dataProcessingOptionsState := None |}.

Definition trackPageView (this : Tracker) (userData : option UserData)
    (customData : option CustomData) : M EventResponse :=
  sendEvent env this
    (quick_event "PageView" userData (default emptyCustomData customData)).

Definition trackLead (this : Tracker) (userData : option UserData)
    (customData : option CustomData) : M EventResponse :=
  sendEvent env this
    (quick_event "Lead" userData (default emptyCustomData customData)).


Definition trackAddToCart (this : Tracker) (contentIds : list string)
    (value : option Q) (currency : option string)
    (userData : option UserData) (additionalData : option CustomData)
    : M EventResponse :=
  let currency := default "USD" currency in
  let base :=
    {| value := value; currency := Some currency;
       contentName := None; contentCategory := None;
       contentIds := Some contentIds;
       contents := None; contentType := None; orderId := None;
       searchString := None; status_ := None; numItems := None;
       deliveryCategory := None; customProperties := None |} in
  sendEvent env this
    (quick_event "AddToCart" userData
       (spread_custom base (default emptyCustomData additionalData))).

Definition trackViewContent (this : Tracker) (contentId : string)
    (contentType : option string) (value : option Q)
    (currency : option string) (userData : option UserData)
    (additionalData : option CustomData) : M EventResponse :=
  let currency := default "USD" currency in
  let base :=
    {| value := value; currency := Some currency;
       contentName := None; contentCategory := None;
       contentIds := Some [contentId];
       contents := None;
       contentType := if truthy_str contentType then contentType else None;
       orderId := None;
       searchString := None; status_ := None; numItems := None;
       deliveryCategory := None; customProperties := None |} in
  sendEvent env this
    (quick_event "ViewContent" userData
       (spread_custom base (default emptyCustomData additionalData))).

(** The [testEvent] of [testConnection], for the time and the id it has
    drawn. *)
Definition testEvent (eventTime : Z) (eventId : string) : ServerEventData := {|
  eventName := "PageView";
  eventTime := Some (inject_Z eventTime);
  eventId := Some eventId;
  eventSourceUrl := Some "https://example.com/test";
  actionSource := Some "website";
  userData := Some {["email" := "test@example.com"]};
  customData :=
    Some {| value := Some 0%Q; currency := Some "USD";
            contentName := None; contentCategory := None;
            contentIds := None; contents := None;
            contentType := None; orderId := None;
            searchString := None; status_ := None;
            numItems := None; deliveryCategory := None;
            customProperties := None |};
  optOut := None;
  dataProcessingOptions := None;
  dataProcessingOptionsCountry := None;
  dataProcessingOptionsState := None |}.

(** [testConnection]: the whole body is inside [try], and the [catch]
    returns. *)
Definition testConnection (this : Tracker) : M ConnectionResult :=
  try_catch
    (eventTime ← getCurrentTimestamp env;
     eventId ← generateEventId env "event";
     response ← sendEvent env this (testEvent eventTime eventId);
     mret {| success := true;
             details :=
               Some {| details_eventsReceived := eventsReceived response;
                       details_fbtrace_id := fbtrace_id response;
                       testMode :=
                         truthy (prop (config this) "testEventCode") |};
             error := None |})
    (fun error =>
       mret {| success := false; details := None;
               error := Some (error_message error) |}).

Definition validatePixelAccess (this : Tracker) : M AccessResult :=
  try_catch
    (testResult ← testConnection this;
     if success testResult then
       mret {| valid := true;
               permissions := Some ["ADVERTISE"; "ANALYZE"];
               access_error := None |}
     else
       mret {| valid := false; permissions := None;
               access_error :=
                 if truthy_str (error testResult) then error testResult
                 else None |})
    (fun error =>
       mret {| valid := false; permissions := None;
               access_error := Some (error_message error) |}).

End QuickMethods.

(** [getConfig]: the configuration without [accessToken] and [appSecret],
    and two flags that say whether they were set. *)
Definition getConfig (this : Tracker) : gmap string jsval :=
  let accessToken := prop (config this) "accessToken" in
  let appSecret := prop (config this) "appSecret" in
  let publicConfig := delete "accessToken" (delete "appSecret" (config this)) in
  <["hasAppSecret" := JBool (truthy appSecret)]>
    (<["hasAccessToken" := JBool (truthy accessToken)]> publicConfig).

(** ** Sample hosts and inputs *)

(** A browser without SubtleCrypto whose every request is answered with
    status 200 and a body that is not JSON. *)
Definition env_browser : Env := {|
  node := false;
  node_sha256 := None;
  subtle_sha256 := None;
  fetch := fun _ =>
    FetchResolves
      {| ok := true; status := 200; statusText := "OK";
         json := inl (ErrorObj "SyntaxError" "Unexpected token < in JSON") |};
  require_https_fails := Some (ErrorObj "Error" "Module https not found");
  https_request := fun _ => HttpsError (ErrorObj "Error" "socket hang up");
  math_random := fun _ => (1 # 2)%Q;
  math_random_base36 := fun _ => "4fzzzxjyl";
  date_now := fun _ => 1700000000000%Z;
  number_to_string := fun q => Z_to_string (Qfloor q);
  window_href := Some "https://example.com/" |}.

Definition sample_token_50 : string :=
  "EAAB567890123456789012345678901234567890123456789Z".

Definition sample_token_51 : string := sample_token_50 ++ "Z".

Definition sample_config (token : string) : gmap string jsval :=
  <["pixelId" := JStr "123456789012345"]> {["accessToken" := JStr token]}.

Definition sample_tracker : Tracker := {|
  config := <["debug" := JBool false]>
             (<["apiVersion" := JStr "v18.0"]> (sample_config sample_token_51));
  retryAttempts := 3;
  retryDelay := 1000;
  baseUrl := "https://graph.facebook.com/v18.0/123456789012345/events" |}.

Definition sample_event (time : option Q) : ServerEventData := {|
  eventName := "Purchase";
  eventTime := time;
  eventId := None;
  eventSourceUrl := Some "https://example.com/checkout";
  actionSource := Some "website";
  userData := Some {["externalId" := "user123"]};
  customData := None;
  optOut := None;
  dataProcessingOptions := None;
  dataProcessingOptionsCountry := None;
  dataProcessingOptionsState := None |}.

Definition sample_items : list ContentItem :=
  [ {| content_id := "p1"; quantity := Some 2%Q;
       itemPrice := Some (4999 # 100)%Q; title := None; category := None;
       brand := None |};
    {| content_id := "p2"; quantity := Some 0%Q; itemPrice := None;
       title := Some "Gift"; category := None; brand := None |};
    {| content_id := "p3"; quantity := None; itemPrice := None;
       title := None; category := None; brand := None |} ].

Definition sample_purchase : ServerEventData := {|
  eventName := "Purchase";
  eventTime := None;
  eventId := Some "order-1001";
  eventSourceUrl := Some "https://example.com/checkout";
  actionSource := None;
  userData := None;
  customData :=
    Some {| value := Some (9999 # 100)%Q; currency := Some "USD";
            contentName := None; contentCategory := None; contentIds := None;
            contents := Some sample_items; contentType := None;
            orderId := None; searchString := None; status_ := None;
            numItems := None; deliveryCategory := None;
            customProperties :=
              Some {["contents" := JStr "mine"; "coupon" := JStr "SPRING"]} |};
  optOut := None;
  dataProcessingOptions := None;
  dataProcessingOptionsCountry := None;
  dataProcessingOptionsState := None |}.

(** A browser whose every request is answered with status 200 and a JSON
    object. *)
Definition env_ok : Env := {|
  node := false;
  node_sha256 := None;
  subtle_sha256 := None;
  fetch := fun _ =>
    FetchResolves
      {| ok := true; status := 200; statusText := "OK";
         json := inr (JObj (<["events_received" := JNum 1]>
                              {["fbtrace_id" := JStr "A1b2C3"]})) |};
  require_https_fails := Some (ErrorObj "Error" "Module https not found");
  https_request := fun _ => HttpsError (ErrorObj "Error" "socket hang up");
  math_random := fun _ => (1 # 4)%Q;
  math_random_base36 := fun _ => "k3j2h1g0f";
  date_now := fun n => (1700000000000 + Z.of_nat n)%Z;
  number_to_string := fun q => Z_to_string (Qfloor q);
  window_href := Some "https://shop.example.com/cart" |}.

(** A Node host without [fetch], whose [https] requests are answered with
    status 200 and an HTML page. *)
Definition env_old_node : Env := {|
  node := true;
  node_sha256 := None;
  subtle_sha256 := None;
  fetch := fun _ => FetchRejects (ErrorObj "ReferenceError" "fetch is not defined");
  require_https_fails := None;
  https_request := fun _ => HttpsReply (Some 200%N) "<html>" None;
  math_random := fun _ => (3 # 4)%Q;
  math_random_base36 := fun _ => "9z8y7x6w5";
  date_now := fun n => (1700000000000 + Z.of_nat n)%Z;
  number_to_string := fun q => Z_to_string (Qfloor q);
  window_href := None |}.

(** ** Vocabulary of the statements *)

(** The checks of [validateServerEventData] that come before the one on the
    event time. *)
Definition name_and_source_ok (e : ServerEventData) : Prop :=
  eventName e <> ""
  /\ forall a, actionSource e = Some a -> a <> "" ->
       includes validActionSources a = true.

(** Between [w] and [w'] nothing was sent, awaited or called back; only the
    clock and the random source may have been read. *)
Definition quiet (w w' : World) : Prop :=
  fetch_log w' = fetch_log w /\ https_log w' = https_log w
  /\ timers w' = timers w /\ callback_calls w' = callback_calls w.

(** The k-th delay of a run that starts at loop index [i] and draws its
    first random sample at position [first]. *)
Definition backoff (env : Env) (delay : Q) (i first k : nat) : Q :=
  (delay * inject_Z (2 ^ Z.of_nat (i + k))
   + math_random env (first + k) * 1000)%Q.

(** [fetches k m]: running [m] issues exactly [k] calls of [fetch]. *)
Definition fetches {A : Type} (k : nat) (m : M A) : Prop :=
  forall w, length (fetch_log (snd (m w))) = length (fetch_log w) + k.




(** [built_in_order env this events w wire w']: [wire] holds, position by
    position, the event that [createServerEvent] builds for the input
    event at that position, the first one in the world [w] and every
    other one in the world its predecessor left; [w'] is the world after
    the last. *)
Inductive built_in_order (env : Env) (this : Tracker)
    : list ServerEventData -> World -> list jsval -> World -> Prop :=
| built_none (w : World) : built_in_order env this [] w [] w
| built_next (e : ServerEventData) (rest : list ServerEventData)
    (event : gmap string jsval) (wire : list jsval) (w w1 w2 : World) :
    createServerEvent env this e w = (inr event, w1) ->
    built_in_order env this rest w1 wire w2 ->
    built_in_order env this (e :: rest) w (JObj event :: wire) w2.

(** A string of ASCII characters (codes below 128), on which the case
    mappings of the host are those of [toLowerCase] and [toUpperCase]. *)
Definition ascii_only (s : string) : Prop :=
  Forall (fun c => nat_of_ascii c < 128) (list_ascii_of_string s).

(** [logs l m]: running [m] appends exactly the requests [l] to the log of
    [fetch] calls. *)
Definition logs {A : Type} (l : list Request) (m : M A) : Prop :=
  forall w, fetch_log (snd (m w)) = (fetch_log w ++ l)%list.

(** The request that [makeRequest] builds for [data]. *)
Definition request_for (this : Tracker) (data : jsval) : Request :=
  {| url := baseUrl this;
     data := match data with JArr l => l | _ => [data] end |}.

(** An event that validation refuses whatever the clock says: it has no
    name, or an action source outside the accepted list. *)
Definition statically_rejected (e : ServerEventData) : Prop :=
  eventName e = ""
  \/ exists a, actionSource e = Some a /\ a <> ""
               /\ includes validActionSources a = false.

(** [customData] with its [customProperties] left out. *)
Definition without_properties (cd : CustomData) : CustomData := {|
  value := value cd; currency := currency cd;
  contentName := contentName cd; contentCategory := contentCategory cd;
  contentIds := contentIds cd; contents := contents cd;
  contentType := contentType cd; orderId := orderId cd;
  searchString := searchString cd; status_ := status_ cd;
  numItems := numItems cd; deliveryCategory := deliveryCategory cd;
  customProperties := None |}.

(** The keys that [createUserData] can set. *)
Definition wire_user_keys : list string :=
  (hashedFields.*2 ++ plainFields.*2)%list.

(** The fields that the normaliser hashes and [createUserData] hashes
    again: the input field, the wire key, and what the normaliser does to
    the text before it hashes it. *)
Definition twice_hashed : list (string * string * (string -> string)) :=
  [("email", "em", id); ("phone", "ph", digits_only);
   ("firstName", "fn", id); ("lastName", "ln", id);
   ("city", "ct", id); ("state", "st", toLowerCase);
   ("country", "country", toLowerCase); ("zipCode", "zp", id)].

(** The polynomial [c0 * 31^(n-1) + ... + c(n-1)] of the character codes
    of a string, continued from [h], in unbounded integers. *)
Fixpoint polynomial31 (h : Z) (s : string) : Z :=
  match s with
  | EmptyString => h
  | String c s' => polynomial31 (31 * h + charCode c)%Z s'
  end.

(** The strings a regular expression stands for. *)
Inductive matches : regex -> string -> Prop :=
| MEps : matches REps ""
| MClass (p : ascii -> bool) (c : ascii) :
    p c = true -> matches (RClass p) (String c "")
| MSeq (r1 r2 : regex) (s1 s2 : string) :
    matches r1 s1 -> matches r2 s2 -> matches (RSeq r1 r2) (s1 ++ s2)
| MAltL (r1 r2 : regex) (s : string) :
    matches r1 s -> matches (RAlt r1 r2) s
| MAltR (r1 r2 : regex) (s : string) :
    matches r2 s -> matches (RAlt r1 r2) s
| MStarNil (r : regex) : matches (RStar r) ""
| MStarApp (r : regex) (s1 s2 : string) :
    matches r s1 -> matches (RStar r) s2 -> matches (RStar r) (s1 ++ s2).

(** A part of an e-mail address as [isValidEmail] sees it: not empty, and
    free of white space and of "@". *)
Definition email_part (s : string) : Prop :=
  s <> "" /\ string_forallb not_space_or_at s = true.

(** * Properties *)

(** ** Hashing *)

Lemma nonempty_true (s : string) : s <> "" -> nonempty s = true.
Proof.
  intros Hs. unfold nonempty.
  destruct (String.eqb_spec s ""); [contradiction | reflexivity].
Qed.

Lemma hashDataSync_string (env : Env) (x : string) :
  x <> "" -> hashDataSync env (JStr x) = digest_sync env (trim (toLowerCase x)).
Proof. intros Hx. simpl. now rewrite nonempty_true. Qed.

Lemma hashData_string (env : Env) (x : string) :
  x <> "" -> hashData env (JStr x) = digest_async env (trim (toLowerCase x)).
Proof. intros Hx. simpl. now rewrite nonempty_true. Qed.

(** C5: [hashDataSync] and [hashData] digest the lower-cased, trimmed text
    of a non-empty string, so inputs with the same normal form (in
    particular the same input twice) get the same digest in a given
    environment; the empty string and every value that is not a string give
    the empty string, and neither function throws. *)
Theorem hash_normalises_then_digests
    (env : Env) (x y : string) (v : jsval) :
  x <> "" -> y <> "" ->
  trim (toLowerCase x) = trim (toLowerCase y) ->
  is_string v = false ->
  hashDataSync env (JStr x) = digest_sync env (trim (toLowerCase x))
  /\ hashData env (JStr x) = digest_async env (trim (toLowerCase x))
  /\ hashDataSync env (JStr x) = hashDataSync env (JStr y)
  /\ hashData env (JStr x) = hashData env (JStr y)
  /\ hashDataSync env (JStr "") = "" /\ hashData env (JStr "") = ""
  /\ hashDataSync env v = "" /\ hashData env v = "".
Proof.
  intros Hx Hy Hnorm Hv.
  rewrite !hashDataSync_string, !hashData_string by assumption.
  rewrite Hnorm.
  repeat split; try reflexivity; destruct v; try reflexivity; discriminate.
Qed.

Lemma hash_normalises_then_digests_witness :
  hashDataSync env_browser (JStr "  Test@Example.COM ")
  = hashDataSync env_browser (JStr "test@example.com")
  /\ hashDataSync env_browser JNull = "".
Proof.
  pose proof (hash_normalises_then_digests env_browser
                "  Test@Example.COM " "test@example.com" JNull) as H.
  destruct H as (_ & _ & Hsame & _ & _ & _ & Hnull & _).
  - discriminate.
  - discriminate.
  - vm_compute. reflexivity.
  - reflexivity.
  - split; [exact Hsame | exact Hnull].
Defined.

(** ** The normaliser *)

Lemma hash_field_lookup_ne (env : Env) (k k' : string) (pre : string -> string)
    (m : UserData) :
  k <> k' -> hash_field env k pre m !! k' = m !! k'.
Proof.
  intros Hne. unfold hash_field.
  destruct (m !! k) as [v|]; [|reflexivity].
  destruct (nonempty v); [|reflexivity].
  now rewrite lookup_insert_ne.
Qed.

Lemma hash_field_lookup_eq (env : Env) (k : string) (pre : string -> string)
    (m : UserData) (v : string) :
  m !! k = Some v -> v <> "" ->
  hash_field env k pre m !! k = Some (hashDataSync env (JStr (pre v))).
Proof.
  intros Hk Hv. unfold hash_field. rewrite Hk, (nonempty_true v Hv).
  apply lookup_insert_eq.
Qed.

Lemma copy_field_lookup_ne (wrap : string -> jsval) (nd : UserData)
    (obj : gmap string jsval) (field : string * string) (k : string) :
  field.2 <> k -> copy_field wrap nd obj field !! k = obj !! k.
Proof.
  intros Hne. unfold copy_field.
  destruct (nd !! field.1) as [v|]; [|reflexivity].
  destruct (nonempty v); [|reflexivity].
  now rewrite lookup_insert_ne.
Qed.

Lemma copy_field_lookup_eq (wrap : string -> jsval) (nd : UserData)
    (obj : gmap string jsval) (src dst : string) :
  copy_field wrap nd obj (src, dst) !! dst =
    match nd !! src with
    | Some v => if nonempty v then Some (wrap v) else obj !! dst
    | None => obj !! dst
    end.
Proof.
  unfold copy_field. simpl.
  destruct (nd !! src) as [v|]; [|reflexivity].
  destruct (nonempty v); [|reflexivity].
  apply lookup_insert_eq.
Qed.

Ltac other_field :=
  repeat (rewrite hash_field_lookup_ne by discriminate);
  repeat (rewrite copy_field_lookup_ne by discriminate).

(** Fields the normaliser does not hash keep their value. *)
Lemma normalizeUserData_other (env : Env) (ud : UserData) (k : string) :
  k ∉ ["email"; "phone"; "firstName"; "lastName"; "externalId"; "zipCode";
       "city"; "state"; "country"] ->
  normalizeUserData env ud !! k = ud !! k.
Proof.
  intros Hk. unfold normalizeUserData.
  repeat (rewrite hash_field_lookup_ne;
          [| intros <-; apply Hk; set_solver]).
  reflexivity.
Qed.

Lemma normalizeUserData_externalId (env : Env) (ud : UserData) (x : string) :
  ud !! "externalId" = Some x -> x <> "" ->
  normalizeUserData env ud !! "externalId"
  = Some (hashDataSync env (JStr x)).
Proof.
  intros Hx Hne. unfold normalizeUserData.
  other_field.
  apply (hash_field_lookup_eq env "externalId" id _ x); [|assumption].
  other_field. assumption.
Qed.

Lemma createUserData_external_id (env : Env) (ud : UserData) :
  createUserData env ud !! "external_id" =
    match normalizeUserData env ud !! "externalId" with
    | Some v => if nonempty v then Some (JStr v) else None
    | None => None
    end.
Proof.
  unfold createUserData, plainFields, hashedFields. simpl foldl.
  other_field. rewrite copy_field_lookup_eq. other_field.
  rewrite lookup_empty.
  destruct (normalizeUserData env ud !! "externalId") as [v|]; [|reflexivity].
  destruct (nonempty v); reflexivity.
Qed.

Lemma createUserData_plain (env : Env) (ud : UserData) (src dst v : string) :
  (src, dst) ∈ [("fbp", "fbp"); ("fbc", "fbc");
                ("clientIpAddress", "client_ip_address");
                ("clientUserAgent", "client_user_agent")] ->
  ud !! src = Some v -> v <> "" ->
  createUserData env ud !! dst = Some (JStr v).
Proof.
  intros Hin Hv Hne.
  assert (Hnorm : normalizeUserData env ud !! src = Some v).
  { rewrite normalizeUserData_other; [assumption|].
    repeat (apply elem_of_cons in Hin as [[= -> ->]|Hin];
            [apply (bool_decide_unpack _); vm_compute; reflexivity |]).
    inversion Hin. }
  unfold createUserData, plainFields, hashedFields. simpl foldl.
  repeat (apply elem_of_cons in Hin as [[= -> ->]|Hin];
          [other_field;
           rewrite copy_field_lookup_eq, Hnorm, (nonempty_true v Hne);
           reflexivity |]).
  inversion Hin.
Qed.




(** ** The response mapper *)

(** C6: on every response record [transformResponse] returns; a count that
    is absent comes out as 0 and absent messages as the empty list; the
    empty record gives 0, the empty list and 0. *)
Theorem transformResponse_total_with_defaults (raw : gmap string jsval) :
  exists r : EventResponse,
    transformResponse (JObj raw) = inr r
    /\ (raw !! "events_received" = None ->
        eventsReceived r = JNum 0 /\ events_received r = JNum 0)
    /\ (raw !! "messages" = None -> messages r = JArr [])
    /\ (raw !! "num_processed_entries" = None ->
        numProcessedEntries r = JNum 0)
    /\ transformResponse (JObj ∅)
       = inr {| eventsReceived := JNum 0; events_received := JNum 0;
                messages := JArr []; fbtrace_id := JUndefined;
                response_id := JUndefined; numProcessedEntries := JNum 0 |}.
Proof.
  eexists. split; [reflexivity|]. simpl. unfold prop.
  split; [intros ->; split; reflexivity |].
  split; [intros ->; reflexivity |].
  split; [intros ->; reflexivity | reflexivity].
Qed.

Lemma transformResponse_total_with_defaults_witness :
  exists r : EventResponse,
    transformResponse (JObj {["fbtrace_id" := JStr "AbCdEf"]}) = inr r
    /\ eventsReceived r = JNum 0 /\ messages r = JArr [].
Proof.
  destruct (transformResponse_total_with_defaults
              {["fbtrace_id" := JStr "AbCdEf"]})
    as (r & Hr & Hcount & Hmsg & _).
  exists r. split; [exact Hr|]. split.
  - apply Hcount. reflexivity.
  - apply Hmsg. reflexivity.
Defined.

(** ** Configuration *)

Lemma isValidPixelId_nonempty (p : string) :
  isValidPixelId p = true -> truthy (JStr p) = true.
Proof. destruct p; [discriminate | reflexivity]. Qed.

Lemma validateConfig_errors (config : gmap string jsval) (p t : string) :
  config !! "pixelId" = Some (JStr p) -> isValidPixelId p = true ->
  config !! "accessToken" = Some (JStr t) -> t <> "" ->
  errors (validateConfig config)
  = if (50 <? String.length t)%nat then []
    else ["Invalid access token format"].
Proof.
  intros Hp Hvalid Ht Hne.
  unfold validateConfig, has_key, prop. rewrite Hp, Ht. simpl.
  assert (Hp' : negb (p =? "")%string = true)
    by exact (isValidPixelId_nonempty p Hvalid).
  rewrite Hp', Hvalid. simpl.
  fold (nonempty t). rewrite (nonempty_true t Hne). simpl.
  destruct (50 <? String.length t)%nat; reflexivity.
Qed.

(** C7 (as the code has it): with a valid pixel id and a non-empty string
    as access token, validation accepts the configuration exactly when the
    token is longer than 50 characters; a token of 51 characters or more
    raises no access-token format error. *)
Theorem access_token_accepted_above_50
    (config : gmap string jsval) (p t : string) :
  config !! "pixelId" = Some (JStr p) -> isValidPixelId p = true ->
  config !! "accessToken" = Some (JStr t) -> t <> "" ->
  isValid (validateConfig config) = (50 <? String.length t)%nat
  /\ ((51 <= String.length t)%nat ->
      isValid (validateConfig config) = true
      /\ errors (validateConfig config) = []).
Proof.
  intros Hp Hvalid Ht Hne.
  pose proof (validateConfig_errors config p t Hp Hvalid Ht Hne) as Herr.
  assert (Hvalid' : isValid (validateConfig config)
                    = (length (errors (validateConfig config)) =? 0)%nat)
    by reflexivity.
  rewrite Hvalid', Herr.
  destruct (Nat.ltb_spec 50 (String.length t)) as [Hlt|Hge].
  - split; [reflexivity|]. intros _. split; reflexivity.
  - split; [reflexivity|]. intros Hlen. lia.
Qed.

Lemma access_token_accepted_above_50_witness :
  isValid (validateConfig (sample_config sample_token_51)) = true
  /\ errors (validateConfig (sample_config sample_token_51)) = [].
Proof.
  destruct (access_token_accepted_above_50 (sample_config sample_token_51)
              "123456789012345" sample_token_51) as [_ Haccept].
  - vm_compute. reflexivity.
  - vm_compute. reflexivity.
  - vm_compute. reflexivity.
  - discriminate.
  - apply Haccept. vm_compute. lia.
Defined.

(** C7 (as stated) fails: a token of exactly 50 characters is rejected, by
    the validator and hence by the constructor. *)
Lemma access_token_of_length_50_rejected :
  String.length sample_token_50 = 50
  /\ isValidPixelId "123456789012345" = true
  /\ validateConfig (sample_config sample_token_50)
     = {| isValid := false; errors := ["Invalid access token format"];
          warnings := [] |}
  /\ new_MetaConversionTracker env_browser (sample_config sample_token_50)
     = inl (TrackingError
              "Invalid configuration: Invalid access token format"
              (Some "CONFIG_ERROR") None).
Proof. repeat split; vm_compute; reflexivity. Qed.

(** C8: when the merged configuration fails validation, [updateConfig]
    throws a [CONFIG_ERROR], and the tracker it leaves behind holds the
    merged configuration, with the endpoint rebuilt from it when the update
    named a pixel id or an API version, and the old endpoint otherwise. *)
Theorem updateConfig_keeps_invalid_merge
    (env : Env) (this : Tracker) (newConfig : gmap string jsval) :
  isValid (validateConfig (newConfig ∪ config this)) = false ->
  exists message after,
    updateConfig env this newConfig
    = (Some (TrackingError message (Some "CONFIG_ERROR") None), after)
    /\ config after = newConfig ∪ config this
    /\ baseUrl after
       = (if truthy (prop newConfig "pixelId")
             || truthy (prop newConfig "apiVersion")
          then endpoint env (newConfig ∪ config this)
          else baseUrl this).
Proof.
  intros Hinvalid. unfold updateConfig.
  destruct (truthy (prop newConfig "pixelId")
            || truthy (prop newConfig "apiVersion"));
    cbn [config retryAttempts retryDelay baseUrl];
    rewrite Hinvalid; cbn [negb];
    eexists _, _; (split; [reflexivity|]); split; reflexivity.
Qed.

Lemma updateConfig_keeps_invalid_merge_witness :
  exists message after,
    updateConfig env_browser sample_tracker {["pixelId" := JStr "12345"]}
    = (Some (TrackingError message (Some "CONFIG_ERROR") None), after)
    /\ config after !! "pixelId" = Some (JStr "12345")
    /\ config sample_tracker !! "pixelId" = Some (JStr "123456789012345")
    /\ baseUrl after = "https://graph.facebook.com/v18.0/12345/events".
Proof.
  destruct (updateConfig_keeps_invalid_merge env_browser sample_tracker
              {["pixelId" := JStr "12345"]})
    as (message & after & Hrun & Hconfig & Hurl).
  - vm_compute. reflexivity.
  - exists message, after. split; [exact Hrun|].
    rewrite Hconfig, Hurl. repeat split; vm_compute; reflexivity.
Defined.

(** ** Event validation *)

Lemma truthy_zero (t : Q) : (t == 0)%Q -> truthy (JNum t) = false.
Proof.
  intros Ht. simpl. apply negb_false_iff. now apply Qeq_bool_iff.
Qed.

Lemma truthy_nonzero (t : Q) : ~ (t == 0)%Q -> truthy (JNum t) = true.
Proof.
  intros Ht. simpl. apply negb_true_iff.
  destruct (Qeq_bool t 0) eqn:E; [|reflexivity].
  apply Qeq_bool_iff in E. contradiction.
Qed.

Lemma js_lt_true (a b : Q) : (a < b)%Q -> js_lt a b = true.
Proof.
  intros Hlt. unfold js_lt. apply negb_true_iff.
  destruct (Qle_bool b a) eqn:E; [|reflexivity].
  apply Qle_bool_iff in E. lra.
Qed.

Lemma source_check_passes (e : ServerEventData) :
  name_and_source_ok e ->
  nonempty (eventName e) = true
  /\ truthy_str (actionSource e)
     && negb (includes validActionSources (default "" (actionSource e)))
     = false.
Proof.
  intros [Hname Hsource]. split; [now apply nonempty_true|].
  destruct (actionSource e) as [a|]; [|reflexivity].
  change (default "" (Some a)) with a. unfold truthy_str, nonempty.
  destruct (String.eqb_spec a "") as [->|Hne]; [reflexivity|].
  now rewrite (Hsource a eq_refl Hne).
Qed.

Lemma js_lt_false (a b : Q) : ~ (a < b)%Q -> js_lt a b = false.
Proof.
  intros Hge. unfold js_lt. apply negb_false_iff. apply Qle_bool_iff. lra.
Qed.

Lemma js_gt_true (a b : Q) : (b < a)%Q -> js_gt a b = true.
Proof.
  intros Hlt. unfold js_gt. apply negb_true_iff.
  destruct (Qle_bool a b) eqn:E; [|reflexivity].
  apply Qle_bool_iff in E. lra.
Qed.

(** C9: an event time of 0 is falsy, so the bounds are not looked at and
    the event is accepted although 0 is below 1_000_000_000; the same
    holds when the event time is absent.  A non-zero event time is held to
    both bounds: below 1_000_000_000, or more than an hour ahead of the
    clock, it is rejected with a validation error. *)
Theorem event_time_zero_skips_bounds
    (env : Env) (this : Tracker) (e : ServerEventData) (w : World) :
  name_and_source_ok e ->
  (forall t, eventTime e = Some t -> (t == 0)%Q ->
     validateServerEventData env this e w = (inr tt, w))
  /\ (eventTime e = None ->
      validateServerEventData env this e w = (inr tt, w))
  /\ (forall t, eventTime e = Some t -> ~ (t == 0)%Q ->
        (t < 1000000000)%Q ->
        validateServerEventData env this e w
        = (inl (validation_error
                  "Event time must be a valid Unix timestamp within reasonable bounds"),
           w))
  /\ (forall t, eventTime e = Some t -> ~ (t == 0)%Q ->
        ~ (t < 1000000000)%Q ->
        (inject_Z (date_now env (clock_reads w)) / 1000 + 3600 < t)%Q ->
        fst (validateServerEventData env this e w)
        = inl (validation_error
                 "Event time must be a valid Unix timestamp within reasonable bounds")).
Proof.
  intros Hok.
  destruct (source_check_passes e Hok) as [Hname Hsource].
  unfold validateServerEventData. rewrite Hname, Hsource. cbn [negb].
  repeat split.
  - intros t -> Hzero. now rewrite (truthy_zero t Hzero).
  - now intros ->.
  - intros t -> Hnz Hlow.
    now rewrite (truthy_nonzero t Hnz), (js_lt_true _ _ Hlow).
  - intros t -> Hnz Hlow Hhigh.
    rewrite (truthy_nonzero t Hnz), (js_lt_false _ _ Hlow).
    unfold mbind, M_bind, Date_now.
    now rewrite (js_gt_true _ _ Hhigh).
Qed.

Lemma event_time_zero_skips_bounds_witness :
  validateServerEventData env_browser sample_tracker (sample_event (Some 0%Q))
    world0 = (inr tt, world0)
  /\ (0 < 1000000000)%Q.
Proof.
  destruct (event_time_zero_skips_bounds env_browser sample_tracker
              (sample_event (Some 0%Q)) world0) as [Hzero _].
  - split; [discriminate|].
    intros a [= <-] _. vm_compute. reflexivity.
  - split; [apply (Hzero 0%Q); reflexivity | reflexivity].
Defined.

(** ** The wire event *)

Lemma set_if_lookup_ne (cond : bool) (k k' : string) (v : jsval)
    (obj : gmap string jsval) :
  k <> k' -> set_if cond k v obj !! k' = obj !! k'.
Proof.
  intros Hne. unfold set_if. destruct cond; [|reflexivity].
  now rewrite lookup_insert_ne.
Qed.

Lemma wire_content_quantity (content : ContentItem) :
  get_optional (wire_content content) "quantity"
  = js_or (of_num (quantity content)) (JNum 1).
Proof.
  unfold wire_content, get_optional, prop.
  rewrite !set_if_lookup_ne by discriminate.
  rewrite lookup_insert_ne by discriminate.
  now rewrite lookup_insert_eq.
Qed.

Lemma createCustomData_contents (cd : CustomData) (items : list ContentItem) :
  contents cd = Some items ->
  createCustomData cd !! "contents" = Some (JArr (map wire_content items)).
Proof.
  intros Hitems. unfold createCustomData. rewrite Hitems.
  destruct (customProperties cd) as [props|].
  - rewrite lookup_union_r; [apply lookup_insert_eq|].
    apply map_lookup_filter_None. right. intros x _ Hres.
    vm_compute in Hres. discriminate.
  - apply lookup_insert_eq.
Qed.

Lemma quiet_refl (w : World) : quiet w w.
Proof. repeat split. Qed.

Lemma quiet_trans (w1 w2 w3 : World) : quiet w1 w2 -> quiet w2 w3 -> quiet w1 w3.
Proof.
  intros (A1 & B1 & C1 & D1) (A2 & B2 & C2 & D2).
  repeat split; congruence.
Qed.

Lemma createServerEvent_returns
    (env : Env) (this : Tracker) (e : ServerEventData) (w : World) :
  exists event w',
    createServerEvent env this e w = (inr event, w')
    /\ quiet w w'
    /\ event !! "custom_data"
       = Some (JObj (createCustomData
                       (default emptyCustomData (customData e)))).
Proof.
  unfold createServerEvent, getCurrentTimestamp, generateEventId,
    Date_now, Math_random_base36, mbind, M_bind, mret, M_ret.
  destruct (eventTime e) as [t|]; [destruct (truthy (JNum t))|];
    destruct (truthy_str (eventId e));
    cbn -[createUserData createCustomData];
    (eexists _, _; split; [reflexivity|]; split; [repeat split|]);
    (destruct (dataProcessingOptions e);
     rewrite ?set_if_lookup_ne by discriminate;
     rewrite ?lookup_insert_ne by discriminate;
     rewrite ?set_if_lookup_ne by discriminate;
     rewrite ?lookup_insert_ne by discriminate;
     apply lookup_insert_eq).
Qed.

(** C10: the wire event carries, for every entry of [customData.contents],
    the entry's quantity when that quantity is not zero and 1 when it is
    zero or absent; a quantity of 0 is never sent. *)
Theorem wire_quantity_defaults_to_one
    (env : Env) (this : Tracker) (e : ServerEventData) (cd : CustomData)
    (items : list ContentItem) (w : World) :
  customData e = Some cd -> contents cd = Some items ->
  exists event custom_data w',
    createServerEvent env this e w = (inr event, w')
    /\ event !! "custom_data" = Some (JObj custom_data)
    /\ custom_data !! "contents" = Some (JArr (map wire_content items))
    /\ Forall (fun item =>
         get_optional (wire_content item) "quantity"
         = match quantity item with
           | Some q => if Qeq_bool q 0 then JNum 1 else JNum q
           | None => JNum 1
           end
         /\ forall q, get_optional (wire_content item) "quantity" = JNum q ->
              ~ (q == 0)%Q) items.
Proof.
  intros Hcd Hitems.
  destruct (createServerEvent_returns env this e w)
    as (event & w' & Hrun & _ & Hcustom).
  rewrite Hcd in Hcustom. cbn [default from_option id] in Hcustom.
  exists event, (createCustomData cd), w'.
  split; [exact Hrun|]. split; [exact Hcustom|].
  split; [now apply createCustomData_contents|].
  apply Forall_forall. intros item _.
  rewrite wire_content_quantity. unfold js_or.
  destruct (quantity item) as [q|]; cbn [of_num truthy].
  - destruct (Qeq_bool q 0) eqn:E; cbn [negb]; (split; [reflexivity|]).
    + intros q' [= <-]. discriminate.
    + intros q' [= <-] Hzero. apply Qeq_bool_iff in Hzero. congruence.
  - split; [reflexivity|]. intros q' [= <-]. discriminate.
Qed.

Lemma wire_quantity_defaults_to_one_witness :
  exists event custom_data w',
    createServerEvent env_browser sample_tracker sample_purchase world0
    = (inr event, w')
    /\ event !! "custom_data" = Some (JObj custom_data)
    /\ custom_data !! "contents" = Some (JArr (map wire_content sample_items))
    /\ map (fun item => get_optional (wire_content item) "quantity")
           sample_items = [JNum 2; JNum 1; JNum 1].
Proof.
  destruct (wire_quantity_defaults_to_one env_browser sample_tracker
              sample_purchase
              (default emptyCustomData (customData sample_purchase))
              sample_items world0)
    as (event & custom_data & w' & Hrun & Hcustom & Hcontents & _).
  - reflexivity.
  - reflexivity.
  - exists event, custom_data, w'.
    split; [exact Hrun|]. split; [exact Hcustom|].
    split; [exact Hcontents|]. vm_compute. reflexivity.
Defined.

(** ** Batches *)

(** C3: a batch that is empty or holds more than 1000 events is refused
    with a validation error, and the world is left as it was: no request has
    been made. *)
Theorem sendBatchEvents_rejects_bad_size
    (env : Env) (this : Tracker) (events : list ServerEventData) (w : World) :
  (length events = 0 \/ 1000 < length events)%nat ->
  exists message,
    sendBatchEvents env this events w
    = (inl (TrackingError message (Some "VALIDATION_ERROR") None), w)
    /\ network_calls (snd (sendBatchEvents env this events w))
       = network_calls w.
Proof.
  intros Hsize. unfold sendBatchEvents.
  destruct (Nat.eqb_spec (length events) 0) as [Hempty|Hnonempty].
  - eexists. split; reflexivity.
  - destruct (Nat.ltb_spec 1000 (length events)) as [Hbig|Hsmall].
    + eexists. split; reflexivity.
    + lia.
Qed.

Lemma sendBatchEvents_rejects_bad_size_witness :
  (exists message,
     sendBatchEvents env_browser sample_tracker [] world0
     = (inl (TrackingError message (Some "VALIDATION_ERROR") None), world0))
  /\ (exists message,
        sendBatchEvents env_browser sample_tracker
          (repeat (sample_event None) 1001) world0
        = (inl (TrackingError message (Some "VALIDATION_ERROR") None), world0))
  /\ network_calls
       (snd (sendBatchEvents env_browser sample_tracker
               (repeat (sample_event None) 1001) world0)) = 0.
Proof.
  destruct (sendBatchEvents_rejects_bad_size env_browser sample_tracker
              [] world0) as (m0 & H0 & _).
  { left. reflexivity. }
  destruct (sendBatchEvents_rejects_bad_size env_browser sample_tracker
              (repeat (sample_event None) 1001) world0) as (m1 & H1 & Hcalls).
  { right. rewrite repeat_length. lia. }
  split; [exists m0; exact H0|].
  split; [exists m1; exact H1 | exact Hcalls].
Defined.

(** ** Retrying *)

Lemma backoff_shift (env : Env) (delay : Q) (i first : nat) (l : list nat) :
  map (backoff env delay (S i) (S first)) l
  = map (backoff env delay i first) (map S l).
Proof.
  rewrite map_map. apply map_ext. intros k. unfold backoff.
  now rewrite !Nat.add_succ_r.
Qed.

(** One turn of the loop of [retry]. *)
Lemma retry_from_S (env : Env) (T : Type) (fn : M T) (n : Z) (delay : Q)
    (r : nat) (i : Z) (last : thrown) (w : World) :
  retry_from env fn n delay (S r) i last w
  = match fn w with
    | (inr v, w') => (inr v, w')
    | (inl error, w') =>
        if (i =? n)%Z then (inl error, w')
        else
          retry_from env fn n delay r (i + 1)%Z error
            {| fetch_log := fetch_log w'; https_log := https_log w';
               random_reads := S (random_reads w');
               clock_reads := clock_reads w';
               timers := timers w'
                         ++ [(delay * inject_Z (2 ^ i)
                              + math_random env (random_reads w') * 1000)%Q];
               callback_calls := callback_calls w' |}
    end.
Proof.
  cbn [retry_from]. unfold try_catch.
  destruct (fn w) as [[error|v] w']; [|reflexivity].
  destruct (i =? n)%Z; reflexivity.
Qed.

Lemma retry_from_callback_fails (env : Env) (T : Type) (errs : nat -> thrown)
    (n : Z) (delay : Q) (r : nat) :
  forall (i : nat) (last : thrown) (w : World),
    (Z.of_nat i + Z.of_nat r = n)%Z ->
    retry_from env (callback (T:=T) (fun k => inl (errs k))) n delay
               (S r) (Z.of_nat i) last w
    = (inl (errs (callback_calls w + r)),
       {| fetch_log := fetch_log w; https_log := https_log w;
          random_reads := random_reads w + r; clock_reads := clock_reads w;
          timers := timers w
                    ++ map (backoff env delay i (random_reads w)) (seq 0 r);
          callback_calls := S (callback_calls w + r) |}).
Proof.
  induction r as [|r IH]; intros i last w Hi.
  - rewrite retry_from_S. unfold callback.
    replace (Z.of_nat i =? n)%Z with true by (symmetry; apply Z.eqb_eq; lia).
    cbn [seq map]. now rewrite app_nil_r, !Nat.add_0_r.
  - rewrite retry_from_S. unfold callback at 1.
    replace (Z.of_nat i =? n)%Z with false by (symmetry; apply Z.eqb_neq; lia).
    replace (Z.of_nat i + 1)%Z with (Z.of_nat (S i)) by lia.
    rewrite IH by lia. cbn [fetch_log https_log random_reads clock_reads
                            timers callback_calls].
    f_equal; [do 2 f_equal; lia|].
    f_equal; [lia| |lia].
    rewrite <- app_assoc. f_equal. cbn [seq map app].
    rewrite <- seq_shift, <- backoff_shift.
    f_equal. unfold backoff. now rewrite !Nat.add_0_r.
Qed.

(** C1 (as the code has it): for a callback that fails every time, [retry]
    with [maxAttempts] as its bound invokes it [maxAttempts + 1] times (one
    first attempt and [maxAttempts] retries), waits before retry k (from 0)
    for [baseDelay * 2^k] plus a jitter in [0, 1000), and finally throws
    the very error of the last invocation. *)
Theorem retry_exhausts_after_maxAttempts_retries
    (env : Env) (T : Type) (errs : nat -> thrown) (maxAttempts : nat)
    (baseDelay : Q) (w : World) :
  (forall k, 0 <= math_random env k < 1)%Q ->
  exists (w' : World) (jitter : nat -> Q),
    retry env (callback (T:=T) (fun k => inl (errs k)))
          (Z.of_nat maxAttempts) baseDelay w
    = (inl (errs (callback_calls w + maxAttempts)), w')
    /\ callback_calls w' = callback_calls w + maxAttempts + 1
    /\ (forall k, 0 <= jitter k < 1000)%Q
    /\ timers w'
       = (timers w
          ++ map (fun k => baseDelay * inject_Z (2 ^ Z.of_nat k) + jitter k)%Q
                 (seq 0 maxAttempts))%list.
Proof.
  intros Hrandom. unfold retry.
  replace (Z.to_nat (Z.of_nat maxAttempts + 1)) with (S maxAttempts) by lia.
  pose proof (retry_from_callback_fails env T errs (Z.of_nat maxAttempts)
                baseDelay maxAttempts 0 ThrownUndefined w) as Hloop.
  change (Z.of_nat 0) with 0%Z in Hloop. rewrite Hloop by lia. clear Hloop.
  eexists _, (fun k => math_random env (random_reads w + k) * 1000)%Q.
  split; [reflexivity|].
  cbn [callback_calls timers].
  split; [lia|]. split; [|reflexivity].
  intros k. specialize (Hrandom (random_reads w + k)). cbv beta. lra.
Qed.

Lemma retry_exhausts_after_maxAttempts_retries_witness :
  exists w' : World,
    retry env_browser
      (callback (T:=unit) (fun k => inl (ErrorObj "Error" (to_decimal (N.of_nat k)))))
      3 10 world0
    = (inl (ErrorObj "Error" "3"), w')
    /\ callback_calls w' = 4
    /\ length (timers w') = 3.
Proof.
  destruct (retry_exhausts_after_maxAttempts_retries env_browser unit
              (fun k => ErrorObj "Error" (to_decimal (N.of_nat k)))
              3 10 world0) as (w' & jitter & Hrun & Hcalls & _ & Htimers).
  - intros k. vm_compute. split; [discriminate | reflexivity].
  - exists w'. split; [exact Hrun|]. split; [exact Hcalls|].
    rewrite Htimers. reflexivity.
Defined.

(** C1 (as stated) fails: with a bound of 1 a callback that always fails is
    invoked twice, not once. *)
Lemma retry_bound_one_invokes_twice :
  callback_calls
    (snd (retry env_browser
            (callback (T:=unit) (fun _ => inl (ErrorObj "Error" "down")))
            1 1000 world0)) = 2
  /\ callback_calls
       (snd (retry env_browser
               (callback (T:=unit) (fun _ => inl (ErrorObj "Error" "down")))
               1 1000 world0)) <> 1.
Proof. split; [vm_compute; reflexivity | vm_compute; discriminate]. Qed.

(** ** Requests and their retries *)

Lemma validateServerEventData_quiet
    (env : Env) (this : Tracker) (e : ServerEventData) (w : World) :
  quiet w (snd (validateServerEventData env this e w)).
Proof.
  unfold validateServerEventData.
  destruct (negb (nonempty (eventName e))); [apply quiet_refl|].
  destruct (truthy_str (actionSource e) && _); [apply quiet_refl|].
  destruct (eventTime e) as [t|]; [|apply quiet_refl].
  destruct (truthy (JNum t)); [|apply quiet_refl].
  destruct (js_lt t 1000000000); [apply quiet_refl|].
  unfold mbind, M_bind, Date_now.
  destruct (js_gt t _); repeat split.
Qed.

Lemma fetches_ret {A : Type} (a : A) : fetches 0 (mret a).
Proof. intros w. cbn. lia. Qed.


















(** * Further properties *)

(** ** retry *)

Lemma retry_from_callback_succeeds (env : Env) (T : Type)
    (outcome : nat -> thrown + T) (n : Z) (delay : Q) (v : T) (f : nat) :
  forall (r i : nat) (last : thrown) (w : World),
    (forall j, j < f -> exists e, outcome (callback_calls w + j) = inl e) ->
    outcome (callback_calls w + f) = inr v ->
    f <= r -> (Z.of_nat i + Z.of_nat r = n)%Z ->
    retry_from env (callback outcome) n delay (S r) (Z.of_nat i) last w
    = (inr v,
       {| fetch_log := fetch_log w; https_log := https_log w;
          random_reads := random_reads w + f; clock_reads := clock_reads w;
          timers := timers w
                    ++ map (backoff env delay i (random_reads w)) (seq 0 f);
          callback_calls := S (callback_calls w + f) |}).
Proof.
  induction f as [|f IH]; intros r i last w Hfail Hok Hle Hi.
  - rewrite retry_from_S. unfold callback.
    rewrite Nat.add_0_r in Hok. rewrite Hok.
    cbn [seq map]. now rewrite app_nil_r, !Nat.add_0_r.
  - destruct r as [|r]; [lia|].
    rewrite retry_from_S. unfold callback at 1.
    destruct (Hfail 0) as [e He]; [lia|].
    rewrite Nat.add_0_r in He. rewrite He.
    replace (Z.of_nat i =? n)%Z with false by (symmetry; apply Z.eqb_neq; lia).
    replace (Z.of_nat i + 1)%Z with (Z.of_nat (S i)) by lia.
    rewrite IH; cbn [fetch_log https_log random_reads clock_reads
                       timers callback_calls]; try lia.
    + f_equal. f_equal; [lia| |lia].
      rewrite <- app_assoc. f_equal. cbn [seq map app].
      rewrite <- seq_shift, <- backoff_shift.
      f_equal. unfold backoff. now rewrite !Nat.add_0_r.
    + intros j Hj. destruct (Hfail (S j)) as [e' He']; [lia|].
      exists e'. rewrite <- He'. f_equal. lia.
    + rewrite <- Hok. f_equal. lia.
Qed.

(** X1: [retry] stops at the first success: when the callback fails [f]
    times and then succeeds, with [f] within the bound, the result is that
    success, the callback has been invoked [f + 1] times, and the [f]
    delays awaited are the exponential ones. *)
Theorem retry_returns_first_success
    (env : Env) (T : Type) (outcome : nat -> thrown + T)
    (maxRetries : nat) (delay : Q) (w : World) (f : nat) (v : T) :
  (forall j, j < f -> exists e, outcome (callback_calls w + j) = inl e) ->
  outcome (callback_calls w + f) = inr v ->
  f <= maxRetries ->
  exists w',
    retry env (callback outcome) (Z.of_nat maxRetries) delay w = (inr v, w')
    /\ callback_calls w' = callback_calls w + f + 1
    /\ timers w'
       = (timers w
          ++ map (fun k => delay * inject_Z (2 ^ Z.of_nat k)
                           + math_random env (random_reads w + k) * 1000)%Q
                 (seq 0 f))%list.
Proof.
  intros Hfail Hok Hle. unfold retry.
  replace (Z.to_nat (Z.of_nat maxRetries + 1)) with (S maxRetries) by lia.
  pose proof (retry_from_callback_succeeds env T outcome (Z.of_nat maxRetries)
                delay v f maxRetries 0 ThrownUndefined w Hfail Hok Hle)
    as Hloop.
  change (Z.of_nat 0) with 0%Z in Hloop. rewrite Hloop by lia.
  eexists. split; [reflexivity|].
  cbn [callback_calls timers]. split; [lia | reflexivity].
Qed.

Lemma retry_returns_first_success_witness :
  exists w',
    retry env_browser
      (callback (fun k => if (k <? 2)%nat
                          then inl (ErrorObj "Error" "down") else inr k))
      3 10 world0
    = (inr 2, w')
    /\ callback_calls w' = 3 /\ length (timers w') = 2.
Proof.
  destruct (retry_returns_first_success env_browser nat
              (fun k => if (k <? 2)%nat
                        then inl (ErrorObj "Error" "down") else inr k)
              3 10 world0 2 2) as (w' & Hrun & Hcalls & Htimers).
  - intros j Hj. exists (ErrorObj "Error" "down").
    destruct j as [|[|j]]; [reflexivity | reflexivity | lia].
  - reflexivity.
  - lia.
  - exists w'. split; [exact Hrun|]. split; [exact Hcalls|].
    rewrite Htimers. reflexivity.
Defined.

(** X2: with a negative bound the loop body never runs: the action is not
    invoked, nothing is awaited, and what is thrown is [undefined] (the
    never-assigned [lastError]). *)
Theorem retry_negative_bound_throws_undefined
    (env : Env) (T : Type) (fn : M T) (maxRetries : Z) (delay : Q)
    (w : World) :
  (maxRetries < 0)%Z ->
  retry env fn maxRetries delay w = (inl ThrownUndefined, w).
Proof.
  intros Hneg. unfold retry.
  replace (Z.to_nat (maxRetries + 1)) with 0 by lia.
  reflexivity.
Qed.

Lemma retry_negative_bound_throws_undefined_witness :
  retry env_browser (callback (fun k => inr k)) (-1) 1000 world0
  = (inl ThrownUndefined, world0).
Proof.
  apply retry_negative_bound_throws_undefined. lia.
Defined.

(** ** What is sent *)

Lemma logs_ret {A : Type} (a : A) : logs [] (mret a).
Proof. intros w. cbn. now rewrite app_nil_r. Qed.

Lemma logs_throw {A : Type} (e : thrown) : logs [] (throw (A:=A) e).
Proof. intros w. cbn. now rewrite app_nil_r. Qed.

Lemma logs_lift {A : Type} (r : thrown + A) : logs [] (lift r).
Proof. intros w. cbn. now rewrite app_nil_r. Qed.

Lemma logs_bind {A B : Type} (l : list Request) (m : M A) (f : A -> M B) :
  logs l m -> (forall x, logs [] (f x)) -> logs l (m ≫= f).
Proof.
  intros Hm Hf w. unfold mbind, M_bind. specialize (Hm w).
  destruct (m w) as [[e|x] w1]; cbn [snd] in *; [assumption|].
  rewrite (Hf x w1), Hm. now rewrite app_nil_r.
Qed.

Lemma logs_try_catch {A : Type} (l : list Request) (m : M A)
    (handler : thrown -> M A) :
  logs l m -> (forall e, logs [] (handler e)) -> logs l (try_catch m handler).
Proof.
  intros Hm Hh w. unfold try_catch. specialize (Hm w).
  destruct (m w) as [[e|x] w1]; cbn [snd] in *; [|assumption].
  rewrite (Hh e w1), Hm. now rewrite app_nil_r.
Qed.

Lemma logs_fetch_call (env : Env) (req : Request) :
  logs [req] (fetch_call env req).
Proof.
  intros w. unfold fetch_call.
  destruct (fetch env (length (fetch_log w))); reflexivity.
Qed.

Lemma logs_read_response (env : Env) (response : Response) :
  logs [] (read_response env response).
Proof.
  unfold read_response. destruct (negb (ok response)).
  - apply logs_bind; [apply logs_lift|]. intros x. apply logs_throw.
  - apply logs_lift.
Qed.

Lemma logs_https_fallback (env : Env) (req : Request) :
  logs [] (https_fallback env req).
Proof.
  unfold https_fallback. destruct (require_https_fails env).
  - apply logs_throw.
  - apply logs_bind.
    + intros w. cbn. now rewrite app_nil_r.
    + intros [e|code body parsed]; [apply logs_throw | apply logs_lift].
Qed.

(** An attempt puts exactly one request on the log: the tracker's endpoint
    with the events it was given. *)
Lemma logs_attempt (env : Env) (this : Tracker) (data : jsval) :
  logs [request_for this data] (attempt env this data).
Proof.
  unfold attempt. apply logs_bind; [|intros x; apply logs_lift].
  unfold makeRequest. fold (request_for this data).
  set (req := request_for this data).
  destruct (node env).
  - intros w. pose proof (logs_fetch_call env req w) as Hfetch.
    destruct (fetch_call env req w) as [[e|response] w1]; cbn [snd] in Hfetch.
    + rewrite (logs_https_fallback env req w1), Hfetch. now rewrite app_nil_r.
    + rewrite (logs_try_catch [] _ _ (logs_read_response env response)
                 (fun e => logs_throw _) w1), Hfetch.
      now rewrite app_nil_r.
  - apply logs_try_catch; [|intros e; apply logs_throw].
    apply logs_bind; [apply logs_fetch_call|].
    intros response. apply logs_read_response.
Qed.

(** A loop with [S r] turns left sends the same request between one and
    [S r] times. *)
Lemma retry_from_logs (env : Env) (T : Type) (fn : M T) (req : Request)
    (n : Z) (delay : Q) :
  logs [req] fn ->
  forall (r : nat) (i : Z) (last : thrown) (w : World),
    exists c,
      1 <= c <= S r
      /\ fetch_log (snd (retry_from env fn n delay (S r) i last w))
         = (fetch_log w ++ repeat req c)%list.
Proof.
  intros Hfn. induction r as [|r IH]; intros i last w;
    rewrite retry_from_S; specialize (Hfn w);
    destruct (fn w) as [[error|v] w1]; cbn [snd] in *;
    try (exists 1; split; [lia | exact Hfn]);
    destruct (i =? n)%Z; cbn [snd];
    try (exists 1; split; [lia | exact Hfn]).
  match goal with
  | |- context [retry_from env fn n delay (S r) ?j ?e ?w2] =>
      destruct (IH j e w2) as (c & Hc & Hlog)
  end.
  exists (S c). split; [lia|].
  rewrite Hlog. cbn [fetch_log]. rewrite Hfn, <- app_assoc. reflexivity.
Qed.

(** X3: an event that fails validation is never sent: [sendEvent] throws
    the validation error itself, and no request has been made and no timer
    awaited. *)
Theorem sendEvent_invalid_event_sends_nothing
    (env : Env) (this : Tracker) (e : ServerEventData) (w w1 : World)
    (err : thrown) :
  validateServerEventData env this e w = (inl err, w1) ->
  sendEvent env this e w = (inl err, w1)
  /\ error_code err = Some "VALIDATION_ERROR"
  /\ network_calls w1 = network_calls w
  /\ timers w1 = timers w.
Proof.
  intros Hvalid.
  pose proof (validateServerEventData_quiet env this e w) as Hq.
  rewrite Hvalid in Hq. destruct Hq as (Hf & Hh & Ht & _). cbn [snd] in *.
  split; [unfold sendEvent, mbind, M_bind; now rewrite Hvalid|].
  split.
  - revert Hvalid. unfold validateServerEventData.
    destruct (negb (nonempty (eventName e))); [now intros [= <- _]|].
    destruct (truthy_str (actionSource e) && _); [now intros [= <- _]|].
    destruct (eventTime e) as [t|]; [|discriminate].
    destruct (truthy (JNum t)); [|discriminate].
    destruct (js_lt t 1000000000); [now intros [= <- _]|].
    unfold mbind, M_bind, Date_now.
    destruct (js_gt t _); [now intros [= <- _] | discriminate].
  - unfold network_calls. now rewrite Hf, Hh.
Qed.

Lemma sendEvent_invalid_event_sends_nothing_witness :
  network_calls
    (snd (sendEvent env_browser sample_tracker
            (sample_event (Some 500000000%Q)) world0)) = 0.
Proof.
  destruct (sendEvent_invalid_event_sends_nothing env_browser sample_tracker
              (sample_event (Some 500000000%Q)) world0 world0
              (validation_error
                 "Event time must be a valid Unix timestamp within reasonable bounds"))
    as (Hrun & _ & Hcalls & _).
  - vm_compute. reflexivity.
  - rewrite Hrun. exact Hcalls.
Defined.

Lemma sendEvent_log_shape
    (env : Env) (this : Tracker) (e : ServerEventData) (w w1 : World) :
  validateServerEventData env this e w = (inr tt, w1) ->
  (0 <= retryAttempts this)%Z ->
  exists event w2 c,
    createServerEvent env this e w1 = (inr event, w2)
    /\ 1 <= c <= Z.to_nat (retryAttempts this) + 1
    /\ fetch_log (snd (sendEvent env this e w))
       = (fetch_log w
          ++ repeat {| url := baseUrl this; data := [JObj event] |} c)%list.
Proof.
  intros Hvalid Hretries.
  pose proof (validateServerEventData_quiet env this e w) as Hq1.
  rewrite Hvalid in Hq1. destruct Hq1 as [Hlog1 _]. cbn [snd] in Hlog1.
  destruct (createServerEvent_returns env this e w1)
    as (event & w2 & Hrun & [Hlog2 _] & _).
  exists event, w2.
  assert (Hsend : sendEvent env this e w
                  = retry env (attempt env this (JObj event))
                          (retryAttempts this) (retryDelay this) w2)
    by (unfold sendEvent, mbind, M_bind; now rewrite Hvalid, Hrun).
  rewrite Hsend. unfold retry.
  destruct (Z.to_nat (retryAttempts this + 1)) as [|r] eqn:Hfuel; [lia|].
  destruct (retry_from_logs env _ (attempt env this (JObj event))
              (request_for this (JObj event)) (retryAttempts this)
              (retryDelay this) (logs_attempt env this (JObj event))
              r 0%Z ThrownUndefined w2) as (c & Hc & Hlog).
  exists c. split; [exact Hrun|]. split; [lia|].
  rewrite Hlog, Hlog2, Hlog1. reflexivity.
Qed.

(** X4: the wire event is built once, before the retries: every request
    that a call of [sendEvent] makes goes to the tracker's endpoint and
    carries that same single event (so also the same event id), and there
    are between one and [retryAttempts + 1] of them. *)
Theorem sendEvent_resends_the_same_request
    (env : Env) (this : Tracker) (e : ServerEventData) (w w1 : World) :
  validateServerEventData env this e w = (inr tt, w1) ->
  (0 <= retryAttempts this)%Z ->
  exists event w2 c,
    createServerEvent env this e w1 = (inr event, w2)
    /\ 1 <= c <= Z.to_nat (retryAttempts this) + 1
    /\ fetch_log (snd (sendEvent env this e w))
       = (fetch_log w
          ++ repeat {| url := baseUrl this; data := [JObj event] |} c)%list.
Proof. intros. eapply sendEvent_log_shape; eassumption. Qed.

Lemma sendEvent_resends_the_same_request_witness :
  exists req,
    fetch_log (snd (sendEvent env_browser sample_tracker
                      (sample_event None) world0))
    = [req; req; req; req].
Proof.
  destruct (sendEvent_resends_the_same_request env_browser sample_tracker
              (sample_event None) world0 world0)
    as (event & w2 & c & _ & Hc & Hlog).
  - vm_compute. reflexivity.
  - vm_compute. discriminate.
  - exists {| url := baseUrl sample_tracker; data := [JObj event] |}.
    rewrite Hlog.
    assert (Hlen : length (fetch_log
                             (snd (sendEvent env_browser sample_tracker
                                     (sample_event None) world0))) = 4)
      by (vm_compute; reflexivity).
    rewrite Hlog, length_app, repeat_length in Hlen. cbn in Hlen.
    now subst c.
Defined.

Lemma transformResponse_total_defined (raw : gmap string jsval) :
  exists resp, transformResponse (JObj raw) = inr resp.
Proof. eexists. reflexivity. Qed.

Lemma attempt_first_reply_ok (env : Env) (this : Tracker) (data : jsval)
    (w : World) (r : Response) (raw : gmap string jsval) :
  fetch env (length (fetch_log w)) = FetchResolves r ->
  ok r = true -> json r = inr (JObj raw) ->
  exists resp w',
    attempt env this data w = (inr resp, w')
    /\ transformResponse (JObj raw) = inr resp
    /\ fetch_log w' = (fetch_log w ++ [request_for this data])%list
    /\ https_log w' = https_log w /\ timers w' = timers w.
Proof.
  intros Hfetch Hok Hjson.
  destruct (transformResponse_total_defined raw) as [resp Hresp].
  unfold attempt, makeRequest, mbind, M_bind, try_catch, fetch_call.
  fold (request_for this data).
  destruct (node env); rewrite Hfetch; unfold read_response;
    rewrite Hok, Hjson; cbn [negb lift]; rewrite Hresp;
    (eexists _, _; split; [reflexivity|]; repeat split).
Qed.

(** X5: when the first reply is a success response whose body is a JSON
    object, [sendEvent] returns the mapped response after exactly one
    request, without waiting and without touching the [https] fallback. *)
Theorem sendEvent_succeeds_on_first_reply
    (env : Env) (this : Tracker) (e : ServerEventData) (w w1 : World)
    (r : Response) (raw : gmap string jsval) :
  validateServerEventData env this e w = (inr tt, w1) ->
  (0 <= retryAttempts this)%Z ->
  fetch env (length (fetch_log w)) = FetchResolves r ->
  ok r = true -> json r = inr (JObj raw) ->
  exists resp w' req,
    sendEvent env this e w = (inr resp, w')
    /\ transformResponse (JObj raw) = inr resp
    /\ fetch_log w' = (fetch_log w ++ [req])%list
    /\ url req = baseUrl this /\ length (data req) = 1
    /\ https_log w' = https_log w /\ timers w' = timers w.
Proof.
  intros Hvalid Hretries Hfetch Hok Hjson.
  pose proof (validateServerEventData_quiet env this e w) as Hq1.
  rewrite Hvalid in Hq1. destruct Hq1 as (Hf1 & Hh1 & Ht1 & _).
  cbn [snd] in *.
  destruct (createServerEvent_returns env this e w1)
    as (event & w2 & Hrun & (Hf2 & Hh2 & Ht2 & _) & _).
  assert (Hsend : sendEvent env this e w
                  = retry env (attempt env this (JObj event))
                          (retryAttempts this) (retryDelay this) w2)
    by (unfold sendEvent, mbind, M_bind; now rewrite Hvalid, Hrun).
  rewrite Hsend. unfold retry.
  destruct (Z.to_nat (retryAttempts this + 1)) as [|n] eqn:Hfuel; [lia|].
  rewrite retry_from_S.
  destruct (attempt_first_reply_ok env this (JObj event) w2 r raw)
    as (resp & w' & Hatt & Hresp & Hf3 & Hh3 & Ht3); try assumption.
  { now rewrite Hf2, Hf1. }
  rewrite Hatt.
  exists resp, w', (request_for this (JObj event)).
  split; [reflexivity|]. split; [exact Hresp|].
  split; [now rewrite Hf3, Hf2, Hf1|].
  split; [reflexivity|]. split; [reflexivity|].
  split; congruence.
Qed.

(** ** makeRequest: which errors are wrapped *)

(** X6: in a browser, and under Node whenever [fetch] itself resolves,
    every failure of [makeRequest] is a tracking error with code
    [API_ERROR] whose message is "API request failed: " followed by the
    message of the underlying error, which it carries as its details. *)
Theorem makeRequest_fetch_failures_are_api_errors
    (env : Env) (this : Tracker) (data : jsval) (w w' : World) (e : thrown) :
  node env = false
  \/ (exists r, fetch env (length (fetch_log w)) = FetchResolves r) ->
  makeRequest env this data w = (inl e, w') ->
  exists cause,
    e = TrackingError ("API request failed: " ++ error_message cause)
                      (Some "API_ERROR") (Some cause).
Proof.
  intros Hpath. unfold makeRequest, mbind, M_bind, try_catch, fetch_call.
  destruct (node env) eqn:Hnode.
  - destruct Hpath as [Hb | [r Hr]]; [discriminate|]. rewrite Hr.
    destruct (read_response env r _) as [[cause|v] w2]; [|discriminate].
    intros [= <- _]. now exists cause.
  - destruct (fetch env (length (fetch_log w))) as [cause|r].
    + intros [= <- _]. now exists cause.
    + destruct (read_response env r _) as [[cause|v] w2]; [|discriminate].
      intros [= <- _]. now exists cause.
Qed.

Lemma makeRequest_fetch_failures_are_api_errors_witness :
  exists cause,
    fst (makeRequest env_browser sample_tracker (JArr []) world0)
    = inl (TrackingError ("API request failed: " ++ error_message cause)
                         (Some "API_ERROR") (Some cause)).
Proof.
  destruct (makeRequest env_browser sample_tracker (JArr []) world0)
    as [[e|v] w'] eqn:Hrun.
  - destruct (makeRequest_fetch_failures_are_api_errors env_browser
                sample_tracker (JArr []) world0 w' e) as [cause ->].
    + left. reflexivity.
    + exact Hrun.
    + exists cause. reflexivity.
  - vm_compute in Hrun. discriminate.
Defined.

(** X7: under Node, when [fetch] rejects and the [https] module loads, the
    outcome of [makeRequest] is the outcome of the [https] exchange, not
    wrapped: a socket error is thrown as it is, a body that does not parse
    gives the plain error "Failed to parse response: <body>", and a parsed
    body with a 2xx status is returned.  One [fetch] and one
    [https.request] have been made, for the same request. *)
Theorem makeRequest_https_fallback_is_not_wrapped
    (env : Env) (this : Tracker) (data : jsval) (w : World) (cause : thrown) :
  node env = true ->
  fetch env (length (fetch_log w)) = FetchRejects cause ->
  require_https_fails env = None ->
  exists w',
    makeRequest env this data w
    = (match https_request env (length (https_log w)) with
       | HttpsError e => inl e
       | HttpsReply code body None =>
           inl (ErrorObj "Error" ("Failed to parse response: " ++ body))
       | HttpsReply code body (Some result) =>
           if is_2xx code then inr result
           else on_end env code body (Some result)
       end, w')
    /\ fetch_log w' = (fetch_log w ++ [request_for this data])%list
    /\ https_log w' = (https_log w ++ [request_for this data])%list.
Proof.
  intros Hnode Hfetch Hhttps.
  unfold makeRequest, fetch_call, https_fallback, https_call,
    mbind, M_bind, lift, throw.
  fold (request_for this data).
  rewrite Hnode, Hfetch, Hhttps. cbn [https_log].
  destruct (https_request env (length (https_log w)))
    as [e|code body [result|]]; cbn [on_end];
    try destruct (is_2xx code);
    (eexists; split; [reflexivity | split; reflexivity]).
Qed.

Lemma makeRequest_https_fallback_is_not_wrapped_witness :
  exists w',
    makeRequest env_old_node sample_tracker (JArr []) world0
    = (inl (ErrorObj "Error" "Failed to parse response: <html>"), w')
    /\ length (fetch_log w') = 1 /\ length (https_log w') = 1.
Proof.
  destruct (makeRequest_https_fallback_is_not_wrapped env_old_node
              sample_tracker (JArr []) world0
              (ErrorObj "ReferenceError" "fetch is not defined"))
    as (w' & Hrun & Hfetch & Hhttps).
  - reflexivity.
  - reflexivity.
  - reflexivity.
  - exists w'. split; [exact Hrun|].
    rewrite Hfetch, Hhttps. split; reflexivity.
Defined.

Lemma sendEvent_succeeds_on_first_reply_witness :
  exists resp w',
    sendEvent env_ok sample_tracker (sample_event None) world0 = (inr resp, w')
    /\ eventsReceived resp = JNum 1
    /\ length (fetch_log w') = 1 /\ timers w' = [].
Proof.
  destruct (sendEvent_succeeds_on_first_reply env_ok sample_tracker
              (sample_event None) world0 world0
              {| ok := true; status := 200; statusText := "OK";
                 json := inr (JObj (<["events_received" := JNum 1]>
                                      {["fbtrace_id" := JStr "A1b2C3"]})) |}
              (<["events_received" := JNum 1]>
                 {["fbtrace_id" := JStr "A1b2C3"]}))
    as (resp & w' & req & Hrun & Hresp & Hlog & _ & _ & _ & Htimers).
  - vm_compute. reflexivity.
  - vm_compute. discriminate.
  - reflexivity.
  - reflexivity.
  - reflexivity.
  - exists resp, w'. split; [exact Hrun|].
    split; [now injection Hresp as <-|].
    rewrite Hlog, Htimers. split; reflexivity.
Defined.

(** ** Batches, continued *)

Lemma validateServerEventData_error_shape
    (env : Env) (this : Tracker) (e : ServerEventData) (w w1 : World)
    (err : thrown) :
  validateServerEventData env this e w = (inl err, w1) ->
  exists msg, err = validation_error msg.
Proof.
  unfold validateServerEventData.
  destruct (negb (nonempty (eventName e))); [intros [= <- _]; eauto|].
  destruct (truthy_str (actionSource e) && _); [intros [= <- _]; eauto|].
  destruct (eventTime e) as [t|]; [|discriminate].
  destruct (truthy (JNum t)); [|discriminate].
  destruct (js_lt t 1000000000); [intros [= <- _]; eauto|].
  unfold mbind, M_bind, Date_now.
  destruct (js_gt t _); [intros [= <- _]; eauto | discriminate].
Qed.

Lemma validateServerEventData_rejects
    (env : Env) (this : Tracker) (e : ServerEventData) (w : World) :
  statically_rejected e ->
  exists msg, validateServerEventData env this e w
              = (inl (validation_error msg), w).
Proof.
  intros [Hname | (a & Ha & Hne & Hbad)]; unfold validateServerEventData.
  - rewrite Hname. cbn. eauto.
  - destruct (negb (nonempty (eventName e))); [eauto|].
    rewrite Ha. change (default "" (Some a)) with a.
    unfold truthy_str. rewrite (nonempty_true a Hne), Hbad. cbn [negb andb].
    eauto.
Qed.

Lemma validate_each_outcome (env : Env) (this : Tracker)
    (events : list ServerEventData) :
  forall (index : nat) (w : World),
    quiet w (snd (validate_each env this events index w))
    /\ (fst (validate_each env this events index w) = inr tt
        \/ exists i msg,
             index <= i < index + length events
             /\ fst (validate_each env this events index w)
                = inl (validation_error
                         ("Event " ++ to_decimal (N.of_nat i) ++ ": " ++ msg))).
Proof.
  induction events as [|event rest IH]; intros index w.
  - split; [apply quiet_refl | now left].
  - cbn [validate_each]. unfold mbind, M_bind, try_catch, throw.
    pose proof (validateServerEventData_quiet env this event w) as Hq.
    destruct (validateServerEventData env this event w) as [[err|[]] w1] eqn:Hv;
      cbn [snd] in Hq.
    + split; [exact Hq|]. right. exists index, (error_message err).
      split; [cbn [length]; lia | reflexivity].
    + destruct (IH (S index) w1) as [Hq2 Hres].
      split; [exact (quiet_trans _ _ _ Hq Hq2)|].
      destruct Hres as [Hok | (i & msg & Hi & Herr)]; [now left|].
      right. exists i, msg. split; [cbn [length]; lia | exact Herr].
Qed.

Lemma validate_each_rejects (env : Env) (this : Tracker)
    (events : list ServerEventData) :
  (exists e, e ∈ events /\ statically_rejected e) ->
  forall (index : nat) (w : World),
    fst (validate_each env this events index w) <> inr tt.
Proof.
  intros (bad & Hin & Hbad).
  induction events as [|event rest IH]; intros index w; [inversion Hin|].
  cbn [validate_each]. unfold mbind, M_bind, try_catch, throw.
  destruct (validateServerEventData env this event w) as [[err|[]] w1] eqn:Hv;
    [discriminate|].
  apply elem_of_cons in Hin as [->|Hin].
  - destruct (validateServerEventData_rejects env this event w Hbad)
      as [msg Hrej]. congruence.
  - now apply IH.
Qed.

(** X8: a batch that contains an event without a name, or with an action
    source outside the accepted list, is refused as a whole with a
    validation error; nothing is sent and nothing awaited.  When the batch
    has at most 1000 events the message names the position of the first
    event that failed validation. *)
Theorem sendBatchEvents_invalid_member_sends_nothing
    (env : Env) (this : Tracker) (events : list ServerEventData) (w : World) :
  (exists e, e ∈ events /\ statically_rejected e) ->
  exists msg,
    fst (sendBatchEvents env this events w) = inl (validation_error msg)
    /\ network_calls (snd (sendBatchEvents env this events w))
       = network_calls w
    /\ timers (snd (sendBatchEvents env this events w)) = timers w
    /\ (length events <= 1000 ->
        exists i reason,
          i < length events
          /\ msg = "Event " ++ to_decimal (N.of_nat i) ++ ": " ++ reason).
Proof.
  intros Hbad. unfold sendBatchEvents.
  destruct (Nat.eqb_spec (length events) 0) as [Hempty|Hnonempty].
  { destruct Hbad as (e & Hin & _). destruct events; [inversion Hin|].
    discriminate. }
  destruct (Nat.ltb_spec 1000 (length events)) as [Hbig|Hsmall].
  { eexists. cbn. repeat split. lia. }
  destruct (validate_each_outcome env this events 0 w)
    as [(Hf & Hh & Ht & _) Hres].
  pose proof (validate_each_rejects env this events Hbad 0 w) as Hrej.
  destruct (validate_each env this events 0 w) as [[err|[]] w1] eqn:Hv;
    cbn [fst snd] in *; [|contradiction].
  match goal with
  | |- context [(?m ≫= ?k) w] =>
      assert (Hrun : (m ≫= k) w = (inl err, w1))
        by (unfold mbind at 1; unfold M_bind at 1; now rewrite Hv)
  end.
  rewrite Hrun. cbn [fst snd].
  destruct Hres as [Hok | (i & reason & Hi & [= ->])]; [discriminate|].
  eexists. split; [reflexivity|].
  split; [unfold network_calls; now rewrite Hf, Hh|].
  split; [exact Ht|]. intros _. exists i, reason. split; [lia | reflexivity].
Qed.

Lemma sendBatchEvents_invalid_member_sends_nothing_witness :
  fst (sendBatchEvents env_ok sample_tracker
         [sample_event None; quick_event env_ok "" None emptyCustomData]
         world0)
  = inl (validation_error "Event 1: Event name is required").
Proof.
  destruct (sendBatchEvents_invalid_member_sends_nothing env_ok sample_tracker
              [sample_event None; quick_event env_ok "" None emptyCustomData]
              world0) as (msg & Hrun & _).
  - exists (quick_event env_ok "" None emptyCustomData).
    split; [|left; reflexivity].
    apply elem_of_cons. right. apply elem_of_cons. left. reflexivity.
  - rewrite Hrun. vm_compute in Hrun. now injection Hrun as <-.
Defined.

Lemma createServerEvents_built (env : Env) (this : Tracker)
    (events : list ServerEventData) :
  forall w, exists wire w',
    createServerEvents env this events w = (inr wire, w')
    /\ built_in_order env this events w wire w'
    /\ quiet w w' /\ length wire = length events.
Proof.
  induction events as [|event rest IH]; intros w.
  - exists [], w. split; [reflexivity|]. split; [constructor|].
    split; [apply quiet_refl | reflexivity].
  - cbn [createServerEvents]. unfold mbind, M_bind.
    destruct (createServerEvent_returns env this event w)
      as (ev & w1 & Hrun & Hq1 & _).
    rewrite Hrun.
    destruct (IH w1) as (wire & w2 & Hrest & Hbuilt & Hq2 & Hlen).
    rewrite Hrest. exists (JObj ev :: wire), w2.
    split; [reflexivity|].
    split; [exact (built_next env this _ _ _ _ _ _ _ Hrun Hbuilt)|].
    split; [exact (quiet_trans _ _ _ Hq1 Hq2) | cbn [length]; now rewrite Hlen].
Qed.

(** X9: a batch whose events all pass validation travels as one request.
    After validation the wire events are built in the order of the batch,
    each by [createServerEvent] from the input event at its position;
    every request that the call makes goes to the tracker's endpoint and
    carries exactly these wire events, in a single array; the same request
    is sent between one and [retryAttempts + 1] times. *)
Theorem sendBatchEvents_sends_one_request_for_all
    (env : Env) (this : Tracker) (events : list ServerEventData)
    (w w1 : World) :
  1 <= length events <= 1000 ->
  validate_each env this events 0 w = (inr tt, w1) ->
  (0 <= retryAttempts this)%Z ->
  exists wire w2 c,
    built_in_order env this events w1 wire w2
    /\ length wire = length events
    /\ 1 <= c <= Z.to_nat (retryAttempts this) + 1
    /\ fetch_log (snd (sendBatchEvents env this events w))
       = (fetch_log w ++ repeat {| url := baseUrl this; data := wire |} c)%list.
Proof.
  intros Hsize Hvalid Hretries.
  destruct (validate_each_outcome env this events 0 w) as [[Hlog1 _] _].
  rewrite Hvalid in Hlog1. cbn [snd] in Hlog1.
  destruct (createServerEvents_built env this events w1)
    as (wire & w2 & Hrun & Hbuilt & [Hlog2 _] & Hlen).
  exists wire, w2.
  assert (Hsend : sendBatchEvents env this events w
                  = retry env (attempt env this (JArr wire))
                          (retryAttempts this) (retryDelay this) w2).
  { unfold sendBatchEvents.
    destruct (Nat.eqb_spec (length events) 0); [lia|].
    destruct (Nat.ltb_spec 1000 (length events)); [lia|].
    unfold mbind, M_bind. now rewrite Hvalid, Hrun. }
  rewrite Hsend. unfold retry.
  destruct (Z.to_nat (retryAttempts this + 1)) as [|r] eqn:Hfuel; [lia|].
  destruct (retry_from_logs env _ (attempt env this (JArr wire))
              (request_for this (JArr wire)) (retryAttempts this)
              (retryDelay this) (logs_attempt env this (JArr wire))
              r 0%Z ThrownUndefined w2) as (c & Hc & Hlog).
  exists c. split; [exact Hbuilt|]. split; [exact Hlen|]. split; [lia|].
  rewrite Hlog, Hlog2, Hlog1. reflexivity.
Qed.

Lemma sendBatchEvents_sends_one_request_for_all_witness :
  exists first second,
    fetch_log (snd (sendBatchEvents env_ok sample_tracker
                      [sample_event None; sample_purchase] world0))
    = [{| url := baseUrl sample_tracker;
          data := [JObj first; JObj second] |}]
    /\ first !! "event_id" = Some (JStr "event_1700000000001_k3j2h1g0f")
    /\ second !! "event_id" = Some (JStr "order-1001").
Proof.
  destruct (sendBatchEvents_sends_one_request_for_all env_ok sample_tracker
              [sample_event None; sample_purchase] world0 world0)
    as (wire & w2 & c & Hbuilt & Hlen & Hc & Hlog).
  - cbn. lia.
  - vm_compute. reflexivity.
  - vm_compute. discriminate.
  - assert (Hone : length (fetch_log
                             (snd (sendBatchEvents env_ok sample_tracker
                                     [sample_event None; sample_purchase]
                                     world0))) = 1)
      by (vm_compute; reflexivity).
    rewrite Hlog, length_app, repeat_length in Hone. cbn in Hone. subst c.
    inversion Hbuilt as [|e1 rest1 first wire1 u u1 u2 Hfirst Hrest]; subst.
    inversion Hrest as [|e2 rest2 second wire2 v v1 v2 Hsecond Hnone]; subst.
    inversion Hnone; subst.
    exists first, second. split; [exact Hlog|].
    vm_compute in Hfirst. injection Hfirst as <- <-.
    vm_compute in Hsecond. injection Hsecond as <- _.
    split; vm_compute; reflexivity.
Defined.

(** ** The wire event, continued *)

Ltac event_lookup :=
  rewrite ?set_if_lookup_ne by discriminate;
  rewrite ?lookup_insert_ne by discriminate;
  rewrite ?set_if_lookup_ne by discriminate;
  rewrite ?lookup_insert_ne by discriminate;
  try apply lookup_insert_eq.

Lemma createServerEvent_fields
    (env : Env) (this : Tracker) (e : ServerEventData) (w : World) :
  exists event w',
    createServerEvent env this e w = (inr event, w')
    /\ event !! "event_name" = Some (JStr (eventName e))
    /\ event !! "action_source"
       = Some (JStr (if truthy_str (actionSource e)
                     then default "" (actionSource e) else "website"))
    /\ event !! "event_time"
       = Some (JNum (match eventTime e with
                     | Some t =>
                         if Qeq_bool t 0
                         then inject_Z (date_now env (clock_reads w) / 1000)
                         else t
                     | None => inject_Z (date_now env (clock_reads w) / 1000)
                     end))
    /\ event !! "event_id"
       = Some (JStr (if truthy_str (eventId e)
                     then default "" (eventId e)
                     else "event_"
                          ++ Z_to_string (date_now env (clock_reads w' - 1))
                          ++ "_" ++ math_random_base36 env (random_reads w))).
Proof.
  unfold createServerEvent, getCurrentTimestamp, generateEventId,
    Date_now, Math_random_base36, next_random, mbind, M_bind, mret, M_ret.
  destruct (eventTime e) as [t|]; cbn [truthy];
    [destruct (Qeq_bool t 0); cbn [negb]|];
    destruct (truthy_str (eventId e));
    cbn -[createUserData createCustomData Z.div];
    (eexists _, _; split; [reflexivity|]);
    cbn [clock_reads random_reads]; rewrite ?Nat.sub_0_r;
    (destruct (dataProcessingOptions e);
     repeat split; event_lookup).
  all: rewrite lookup_insert_eq; cbn [Nat.sub]; rewrite Nat.sub_0_r;
    reflexivity.
Qed.

(** X10: [createServerEvent] always returns, and fills what the caller
    left out: the action source becomes "website", the event time the
    current Unix time in whole seconds (also when the caller passed 0), the
    event id a fresh "event_<milliseconds>_<random>"; what the caller did
    pass (a name, a non-zero time, a non-empty id or action source) is used
    as it is. *)
Theorem createServerEvent_fills_defaults
    (env : Env) (this : Tracker) (e : ServerEventData) (w : World) :
  exists event w',
    createServerEvent env this e w = (inr event, w')
    /\ event !! "event_name" = Some (JStr (eventName e))
    /\ event !! "action_source"
       = Some (JStr (if truthy_str (actionSource e)
                     then default "" (actionSource e) else "website"))
    /\ event !! "event_time"
       = Some (JNum (match eventTime e with
                     | Some t =>
                         if Qeq_bool t 0
                         then inject_Z (date_now env (clock_reads w) / 1000)
                         else t
                     | None => inject_Z (date_now env (clock_reads w) / 1000)
                     end))
    /\ event !! "event_id"
       = Some (JStr (if truthy_str (eventId e)
                     then default "" (eventId e)
                     else "event_"
                          ++ Z_to_string (date_now env (clock_reads w' - 1))
                          ++ "_" ++ math_random_base36 env (random_reads w))).
Proof. intros. eapply createServerEvent_fields; eassumption. Qed.

(** X11: when the caller supplies a non-zero event time and a non-empty
    event id, building the wire event reads neither the clock nor the
    random source: the same event comes out in every world, and the world
    is left as it was. *)
Theorem createServerEvent_pure_when_time_and_id_given
    (env : Env) (this : Tracker) (e : ServerEventData) (t : Q) (id : string) :
  eventTime e = Some t -> ~ (t == 0)%Q ->
  eventId e = Some id -> id <> "" ->
  exists event,
    forall w, createServerEvent env this e w = (inr event, w).
Proof.
  intros Ht Hnz Hid Hne.
  unfold createServerEvent, mbind, M_bind, mret, M_ret.
  rewrite Ht, Hid, (truthy_nonzero t Hnz).
  unfold truthy_str. rewrite (nonempty_true id Hne).
  eexists. intros w. reflexivity.
Qed.

Lemma createServerEvent_pure_when_time_and_id_given_witness :
  exists event,
    forall w,
      createServerEvent env_ok sample_tracker
        {| eventName := "Lead"; eventTime := Some 1700000000%Q;
           eventId := Some "lead-7"; eventSourceUrl := None;
           actionSource := Some "email"; userData := None;
           customData := None; optOut := Some true;
           dataProcessingOptions := None;
           dataProcessingOptionsCountry := None;
           dataProcessingOptionsState := None |} w
      = (inr event, w).
Proof.
  apply (createServerEvent_pure_when_time_and_id_given env_ok sample_tracker
           _ 1700000000%Q "lead-7").
  - reflexivity.
  - vm_compute. discriminate.
  - reflexivity.
  - discriminate.
Defined.

(** ** Custom data *)

Lemma reserved_filtered_out (props : gmap string jsval) (k : string) :
  includes reservedFields k = true ->
  filter (fun kv : string * jsval => includes reservedFields kv.1 = false)
         props !! k = None.
Proof.
  intros Hres. apply map_lookup_filter_None. right. intros x _ Hno.
  cbn [fst] in Hno. congruence.
Qed.

Lemma createCustomData_dom_base (cd : CustomData) (k : string) :
  customProperties cd = None ->
  is_Some (createCustomData cd !! k) -> includes reservedFields k = true.
Proof.
  intros Hnone. unfold createCustomData. rewrite Hnone.
  intros Hsome.
  destruct (includes reservedFields k) eqn:Hk; [reflexivity|].
  exfalso. revert Hsome.
  assert (Hne : forall r, includes reservedFields r = true -> r <> k)
    by (intros r Hr ->; congruence).
  destruct (contents cd), (contentIds cd);
    repeat first
      [ rewrite set_if_lookup_ne by (apply Hne; reflexivity)
      | rewrite lookup_insert_ne by (apply Hne; reflexivity) ];
    rewrite lookup_empty; apply is_Some_None.
Qed.

Lemma createCustomData_split (cd : CustomData) (props : gmap string jsval) :
  customProperties cd = Some props ->
  createCustomData cd
  = filter (fun kv : string * jsval => includes reservedFields kv.1 = false)
           props
    ∪ createCustomData (without_properties cd).
Proof.
  intros Hprops. unfold createCustomData. rewrite Hprops. reflexivity.
Qed.

(** X12: custom properties fill in around the standard members and never
    replace them: under a reserved key the custom data object holds what
    it would hold without any custom properties (a custom property of that
    name is dropped), and under every other key it holds exactly the custom
    property of that name, if there is one. *)
Theorem custom_properties_never_override
    (cd : CustomData) (props : gmap string jsval) :
  customProperties cd = Some props ->
  (forall k, includes reservedFields k = true ->
     createCustomData cd !! k = createCustomData (without_properties cd) !! k)
  /\ (forall k, includes reservedFields k = false ->
        createCustomData cd !! k = props !! k).
Proof.
  intros Hprops. rewrite (createCustomData_split cd props Hprops). split.
  - intros k Hres. apply lookup_union_r. now apply reserved_filtered_out.
  - intros k Hfree.
    rewrite lookup_union_l.
    + destruct (props !! k) as [v|] eqn:Hk.
      * apply map_lookup_filter_Some. split; [exact Hk | exact Hfree].
      * apply map_lookup_filter_None. left. exact Hk.
    + destruct (createCustomData (without_properties cd) !! k) eqn:Hbase;
        [|reflexivity].
      assert (Hsome : is_Some (createCustomData (without_properties cd) !! k))
        by (rewrite Hbase; eauto).
      apply createCustomData_dom_base in Hsome; [congruence | reflexivity].
Qed.

Lemma custom_properties_never_override_witness :
  createCustomData (default emptyCustomData (customData sample_purchase))
    !! "coupon" = Some (JStr "SPRING")
  /\ createCustomData (default emptyCustomData (customData sample_purchase))
       !! "currency" = Some (JStr "USD").
Proof.
  destruct (custom_properties_never_override
              (default emptyCustomData (customData sample_purchase))
              {["contents" := JStr "mine"; "coupon" := JStr "SPRING"]})
    as [Hreserved Hfree].
  - reflexivity.
  - split.
    + rewrite Hfree; vm_compute; reflexivity.
    + rewrite Hreserved; vm_compute; reflexivity.
Defined.

(** ** User data *)

Lemma foldl_copy_field_notin (wrap : string -> jsval) (nd : UserData)
    (fields : list (string * string)) (k : string) :
  k ∉ fields.*2 ->
  forall obj, foldl (copy_field wrap nd) obj fields !! k = obj !! k.
Proof.
  induction fields as [|field rest IH]; intros Hk obj; [reflexivity|].
  cbn [foldl]. rewrite IH.
  - apply copy_field_lookup_ne. intros Heq. apply Hk.
    rewrite fmap_cons, elem_of_cons. now left.
  - intros Hin. apply Hk. rewrite fmap_cons, elem_of_cons. now right.
Qed.

Lemma createUserData_unfold (env : Env) (ud : UserData) :
  createUserData env ud
  = foldl (copy_field JStr (normalizeUserData env ud))
      (foldl (copy_field (fun v => JPromise (JStr (hashData env (JStr v))))
                         (normalizeUserData env ud)) ∅ hashedFields)
      plainFields.
Proof. reflexivity. Qed.

(** X13: the wire user data has no keys but the 24 that [createUserData]
    knows: an input field it does not map ([loginId], [madid], [anonId],
    ...) is not sent, under any name. *)
Theorem createUserData_only_wire_keys
    (env : Env) (ud : UserData) (k : string) :
  is_Some (createUserData env ud !! k) -> k ∈ wire_user_keys.
Proof.
  intros Hsome. destruct (decide (k ∈ wire_user_keys)) as [Hin|Hout];
    [exact Hin|].
  exfalso.
  assert (Hh : k ∉ hashedFields.*2)
    by (intros Hin; apply Hout, elem_of_app; now left).
  assert (Hp : k ∉ plainFields.*2)
    by (intros Hin; apply Hout, elem_of_app; now right).
  rewrite createUserData_unfold in Hsome.
  rewrite (foldl_copy_field_notin _ _ _ _ Hp) in Hsome.
  rewrite (foldl_copy_field_notin _ _ _ _ Hh) in Hsome.
  rewrite lookup_empty in Hsome. now apply is_Some_None in Hsome.
Qed.

Lemma createUserData_only_wire_keys_witness :
  createUserData env_ok
    (<["madid" := "38400000-8cf0-11bd-b23e-10b96e40000d"]>
       {["fbp" := "fb.1.1700000000.42"]}) !! "madid" = None.
Proof.
  destruct (createUserData env_ok
              (<["madid" := "38400000-8cf0-11bd-b23e-10b96e40000d"]>
                 {["fbp" := "fb.1.1700000000.42"]}) !! "madid") eqn:Hk;
    [|reflexivity].
  exfalso.
  assert (Hin : "madid" ∈ wire_user_keys).
  { apply (createUserData_only_wire_keys env_ok
             (<["madid" := "38400000-8cf0-11bd-b23e-10b96e40000d"]>
                {["fbp" := "fb.1.1700000000.42"]})).
    rewrite Hk. eauto. }
  revert Hin. apply (bool_decide_unpack _). vm_compute. reflexivity.
Defined.

Lemma hash_field_dom (env : Env) (k : string) (pre : string -> string)
    (m : UserData) :
  dom (hash_field env k pre m) = dom m.
Proof.
  unfold hash_field. destruct (m !! k) as [v|] eqn:Hk; [|reflexivity].
  destruct (nonempty v); [|reflexivity].
  apply dom_insert_lookup_L. rewrite Hk. eauto.
Qed.

(** X14: the normaliser neither adds nor removes a field: its result has
    exactly the fields of its input. *)
Theorem normalizeUserData_keeps_the_fields (env : Env) (ud : UserData) :
  dom (normalizeUserData env ud) = dom ud.
Proof.
  unfold normalizeUserData. now rewrite !hash_field_dom.
Qed.

Lemma normalizeUserData_hashed (env : Env) (ud : UserData)
    (src dst : string) (pre : string -> string) (x : string) :
  (src, dst, pre) ∈ twice_hashed ->
  ud !! src = Some x -> x <> "" ->
  normalizeUserData env ud !! src = Some (hashDataSync env (JStr (pre x))).
Proof.
  intros Hin Hx Hne. unfold normalizeUserData, twice_hashed in *.
  repeat (apply elem_of_cons in Hin as [[= -> -> ->]|Hin];
          [other_field;
           match goal with
           | |- hash_field _ ?k ?p _ !! _ = _ =>
               apply (hash_field_lookup_eq env k p _ x); [|assumption]
           end;
           other_field; assumption |]).
  inversion Hin.
Qed.

Lemma createUserData_twice_hashed
    (env : Env) (ud : UserData) (src dst : string) (pre : string -> string)
    (x : string) :
  (src, dst, pre) ∈ twice_hashed ->
  ud !! src = Some x -> x <> "" ->
  createUserData env ud !! dst
  = (if nonempty (hashDataSync env (JStr (pre x)))
     then Some (JPromise
                  (JStr (hashData env
                           (JStr (hashDataSync env (JStr (pre x)))))))
     else None).
Proof.
  intros Hin Hx Hne.
  pose proof (normalizeUserData_hashed env ud src dst pre x Hin Hx Hne)
    as Hnorm.
  rewrite createUserData_unfold.
  rewrite foldl_copy_field_notin.
  2:{ unfold twice_hashed in Hin.
      repeat (apply elem_of_cons in Hin as [[= -> -> ->]|Hin];
              [apply (bool_decide_unpack _); vm_compute; reflexivity |]).
      inversion Hin. }
  unfold hashedFields, twice_hashed in *. cbn [foldl].
  repeat (apply elem_of_cons in Hin as [[= -> -> ->]|Hin];
          [repeat (rewrite copy_field_lookup_ne by discriminate);
           rewrite copy_field_lookup_eq, Hnorm;
           destruct (nonempty _); [reflexivity|];
           repeat (rewrite copy_field_lookup_ne by discriminate);
           apply lookup_empty |]).
  inversion Hin.
Qed.

(** X15: the matching fields are hashed twice on their way to the wire:
    the normaliser replaces the text (for a phone its digits, for state and
    country its lower-case form) by its synchronous hash, and
    [createUserData] stores, under the short wire key, the promise of the
    asynchronous hash of that hash; when the first hash is empty the key is
    left out. *)
Theorem matching_fields_are_hashed_twice
    (env : Env) (ud : UserData) (src dst : string) (pre : string -> string)
    (x : string) :
  (src, dst, pre) ∈ twice_hashed ->
  ud !! src = Some x -> x <> "" ->
  createUserData env ud !! dst
  = (if nonempty (hashDataSync env (JStr (pre x)))
     then Some (JPromise
                  (JStr (hashData env
                           (JStr (hashDataSync env (JStr (pre x)))))))
     else None).
Proof. intros. eapply createUserData_twice_hashed; eassumption. Qed.

Lemma matching_fields_are_hashed_twice_witness :
  createUserData env_ok {["email" := " Ann@Example.com"]} !! "em"
  = Some (JPromise (JStr "3ab867bf")).
Proof.
  rewrite (matching_fields_are_hashed_twice env_ok
             {["email" := " Ann@Example.com"]} "email" "em" id
             " Ann@Example.com").
  - vm_compute. reflexivity.
  - apply elem_of_cons. left. reflexivity.
  - vm_compute. reflexivity.
  - discriminate.
Defined.

(** ** Phone numbers *)

Lemma digit_is_lower (c : ascii) :
  is_digit c = true -> toLowerCase_ascii c = c.
Proof.
  destruct c as [[] [] [] [] [] [] [] []]; intros H;
    try discriminate H; reflexivity.
Qed.

Lemma digit_not_space (c : ascii) :
  is_digit c = true -> Ascii.is_space c = false.
Proof.
  destruct c as [[] [] [] [] [] [] [] []]; intros H;
    try discriminate H; reflexivity.
Qed.

Lemma digits_only_digits (s : string) :
  string_forallb is_digit (digits_only s) = true.
Proof.
  induction s as [|c s IH]; [reflexivity|].
  unfold digits_only in *. cbn [string_filter].
  destruct (is_digit c) eqn:Hc; [|exact IH].
  cbn [string_forallb]. now rewrite Hc, IH.
Qed.

Lemma toLowerCase_digits (s : string) :
  string_forallb is_digit s = true -> toLowerCase s = s.
Proof.
  induction s as [|c s IH]; [reflexivity|].
  cbn [string_forallb toLowerCase]. intros [Hc Hs]%andb_prop.
  now rewrite (digit_is_lower c Hc), (IH Hs).
Qed.

Lemma trimStart_digits (s : string) :
  string_forallb is_digit s = true -> trimStart s = s.
Proof.
  destruct s as [|c s]; [reflexivity|].
  cbn [string_forallb trimStart]. intros [Hc _]%andb_prop.
  now rewrite (digit_not_space c Hc).
Qed.

Lemma rev_app_forallb (f : ascii -> bool) (s acc : string) :
  string_forallb f (String.rev_app s acc)
  = string_forallb f s && string_forallb f acc.
Proof.
  revert acc. induction s as [|c s IH]; intros acc; [reflexivity|].
  cbn [String.rev_app string_forallb]. rewrite IH. cbn [string_forallb].
  destruct (f c), (string_forallb f s), (string_forallb f acc); reflexivity.
Qed.

Lemma append_empty_r (s : string) : s ++ "" = s.
Proof.
  induction s as [|c s IH]; [reflexivity|].
  change (String c (s ++ "") = String c s). now rewrite IH.
Qed.

Lemma rev_app_rev_app (s a b : string) :
  String.rev_app (String.rev_app s a) b = String.rev_app a (s ++ b).
Proof.
  revert a b. induction s as [|c s IH]; intros a b; [reflexivity|].
  cbn [String.rev_app]. rewrite IH. reflexivity.
Qed.

Lemma rev_involutive (s : string) : String.rev (String.rev s) = s.
Proof.
  unfold String.rev. rewrite rev_app_rev_app. cbn [String.rev_app].
  apply append_empty_r.
Qed.

Lemma trim_digits (s : string) :
  string_forallb is_digit s = true -> trim s = s.
Proof.
  intros Hs. unfold trim, trimEnd. rewrite (trimStart_digits s Hs).
  rewrite trimStart_digits; [apply rev_involutive|].
  unfold String.rev. now rewrite rev_app_forallb, Hs.
Qed.

Lemma normalised_phone_digits
    (env : Env) (ud : UserData) (p : string) :
  ud !! "phone" = Some p -> p <> "" ->
  (digits_only p <> "" ->
     normalizeUserData env ud !! "phone"
     = Some (digest_sync env (digits_only p)))
  /\ (digits_only p = "" ->
      normalizeUserData env ud !! "phone" = Some ""
      /\ createUserData env ud !! "ph" = None).
Proof.
  intros Hp Hne.
  pose proof (normalizeUserData_hashed env ud "phone" "ph" digits_only p)
    as Hnorm.
  assert (Hin : ("phone", "ph", digits_only) ∈ twice_hashed)
    by (apply elem_of_cons; right; apply elem_of_cons; now left).
  specialize (Hnorm Hin Hp Hne). split.
  - intros Hdigits. rewrite Hnorm, (hashDataSync_string env _ Hdigits).
    pose proof (digits_only_digits p) as Hall.
    now rewrite (toLowerCase_digits _ Hall), (trim_digits _ Hall).
  - intros Hnone. rewrite Hnone in Hnorm. split; [exact Hnorm|].
    rewrite (createUserData_twice_hashed env ud "phone" "ph"
               digits_only p Hin Hp Hne).
    rewrite Hnone. reflexivity.
Qed.

(** X16: only the digits of a phone number count.  When the number has at
    least one digit, the normalised phone is the digest of exactly its
    digit string, so two spellings of one number are normalised alike;
    when it has none, the normalised phone is the empty string and the
    wire event gets no [ph]. *)
Theorem phone_is_normalised_to_its_digits
    (env : Env) (ud : UserData) (p : string) :
  ud !! "phone" = Some p -> p <> "" ->
  (digits_only p <> "" ->
     normalizeUserData env ud !! "phone"
     = Some (digest_sync env (digits_only p)))
  /\ (digits_only p = "" ->
      normalizeUserData env ud !! "phone" = Some ""
      /\ createUserData env ud !! "ph" = None).
Proof. intros. eapply normalised_phone_digits; eassumption. Qed.

Lemma phone_is_normalised_to_its_digits_witness :
  normalizeUserData env_ok {["phone" := "+1 (555) 123-4567"]} !! "phone"
  = normalizeUserData env_ok {["phone" := "15551234567"]} !! "phone".
Proof.
  destruct (phone_is_normalised_to_its_digits env_ok
              {["phone" := "+1 (555) 123-4567"]} "+1 (555) 123-4567")
    as [Ha _]; [vm_compute; reflexivity | discriminate |].
  destruct (phone_is_normalised_to_its_digits env_ok
              {["phone" := "15551234567"]} "15551234567")
    as [Hb _]; [vm_compute; reflexivity | discriminate |].
  rewrite Ha, Hb; [reflexivity | vm_compute; discriminate
                   | vm_compute; discriminate].
Defined.

(** [isValidPhone] accepts a number exactly when it has between 7 and
    15 digits, whatever separators surround them; and a number it accepts
    is never normalised to the empty string. *)
Theorem isValidPhone_counts_digits
    (env : Env) (ud : UserData) (p : string) :
  isValidPhone p = isValidPhone (digits_only p)
  /\ (isValidPhone p = true -> ud !! "phone" = Some p ->
      normalizeUserData env ud !! "phone"
      = Some (digest_sync env (digits_only p))).
Proof.
  split.
  - unfold isValidPhone.
    assert (Hidem : digits_only (digits_only p) = digits_only p).
    { pose proof (digits_only_digits p) as Hall.
      induction (digits_only p) as [|c s IH]; [reflexivity|].
      cbn [string_forallb] in Hall. apply andb_prop in Hall as [Hc Hs].
      unfold digits_only in *. cbn [string_filter]. rewrite Hc.
      now rewrite (IH Hs). }
    now rewrite Hidem.
  - intros Hvalid Hp.
    assert (Hdigits : digits_only p <> "").
    { intros Hnone. unfold isValidPhone in Hvalid. rewrite Hnone in Hvalid.
      discriminate. }
    assert (Hne : p <> "") by (intros ->; now apply Hdigits).
    now apply (normalised_phone_digits env ud p Hp Hne).
Qed.

Lemma isValidPhone_counts_digits_witness :
  isValidPhone "(555) 123-4567" = true /\ isValidPhone "555" = false.
Proof.
  destruct (isValidPhone_counts_digits env_ok ∅ "(555) 123-4567") as [H _].
  rewrite H. split; vm_compute; reflexivity.
Defined.

(** ** The fallback hash *)

Lemma to_int32_range (z : Z) : (- 2 ^ 31 <= to_int32 z < 2 ^ 31)%Z.
Proof.
  unfold to_int32.
  pose proof (Z.mod_pos_bound (z + 2 ^ 31) (2 ^ 32) ltac:(lia)). lia.
Qed.

Lemma to_int32_shift (z q : Z) : to_int32 (z + 2 ^ 32 * q) = to_int32 z.
Proof.
  unfold to_int32.
  replace (z + 2 ^ 32 * q + 2 ^ 31)%Z with (z + 2 ^ 31 + q * 2 ^ 32)%Z by lia.
  now rewrite Z_mod_plus_full.
Qed.

Lemma to_int32_wraps (z : Z) : exists q, (to_int32 z = z + 2 ^ 32 * q)%Z.
Proof.
  exists (- ((z + 2 ^ 31) / 2 ^ 32))%Z. unfold to_int32.
  pose proof (Z.div_mod (z + 2 ^ 31) (2 ^ 32) ltac:(lia)). lia.
Qed.

Lemma simple_hash_step_31 (h : Z) (c : ascii) :
  simple_hash_step h c = to_int32 (31 * h + charCode c).
Proof.
  unfold simple_hash_step, js_and, js_shl.
  rewrite Z.land_diag, Z.shiftl_mul_pow2 by lia.
  destruct (to_int32_wraps h) as [q1 ->].
  destruct (to_int32_wraps ((h + 2 ^ 32 * q1) * 2 ^ 5)) as [q2 ->].
  replace ((h + 2 ^ 32 * q1) * 2 ^ 5 + 2 ^ 32 * q2 - h + charCode c)%Z
    with (31 * h + charCode c + 2 ^ 32 * (32 * q1 + q2))%Z by lia.
  apply to_int32_shift.
Qed.

Lemma polynomial31_congruent (s : string) :
  forall a q,
    exists q', (polynomial31 (a + 2 ^ 32 * q) s
                = polynomial31 a s + 2 ^ 32 * q')%Z.
Proof.
  induction s as [|c s IH]; intros a q; cbn [polynomial31].
  - now exists q.
  - replace (31 * (a + 2 ^ 32 * q) + charCode c)%Z
      with (31 * a + charCode c + 2 ^ 32 * (31 * q))%Z by lia.
    apply IH.
Qed.

Lemma simple_hash_loop_polynomial (s : string) :
  forall h, to_int32 (simple_hash_loop h s) = to_int32 (polynomial31 h s).
Proof.
  induction s as [|c s IH]; intros h; [reflexivity|].
  cbn [simple_hash_loop polynomial31]. rewrite IH, simple_hash_step_31.
  destruct (to_int32_wraps (31 * h + charCode c)) as [q ->].
  destruct (polynomial31_congruent s (31 * h + charCode c)%Z q) as [q' ->].
  apply to_int32_shift.
Qed.

Lemma simple_hash_loop_in_range (s : string) :
  forall h, (- 2 ^ 31 <= h < 2 ^ 31)%Z ->
            (- 2 ^ 31 <= simple_hash_loop h s < 2 ^ 31)%Z.
Proof.
  induction s as [|c s IH]; intros h Hh; [exact Hh|].
  cbn [simple_hash_loop]. apply IH. rewrite simple_hash_step_31.
  apply to_int32_range.
Qed.

Lemma to_int32_id (z : Z) : (- 2 ^ 31 <= z < 2 ^ 31)%Z -> to_int32 z = z.
Proof.
  intros Hz. unfold to_int32. rewrite Z.mod_small by lia. lia.
Qed.

(** X17: the fallback hash is the 31-multiplier polynomial hash of the
    character codes, wrapped to a signed 32-bit integer: the shift-and-
    subtract loop computes [c0 * 31^(n-1) + ... + c(n-1)] modulo 2^32, and
    the value it ends with always lies in [-2^31, 2^31), so the hexadecimal
    digest is that of a number of at most 2^31. *)
Theorem simple_hash_is_polynomial_mod_2_32 (s : string) :
  simple_hash_loop 0 s = to_int32 (polynomial31 0 s)
  /\ (- 2 ^ 31 <= simple_hash_loop 0 s < 2 ^ 31)%Z
  /\ (Z.abs (simple_hash_loop 0 s) <= 2 ^ 31)%Z.
Proof.
  pose proof (simple_hash_loop_in_range s 0%Z ltac:(lia)) as Hrange.
  split; [|split; [exact Hrange | lia]].
  rewrite <- simple_hash_loop_polynomial. symmetry. now apply to_int32_id.
Qed.

(** ** Configuration, continued *)

Lemma validateConfig_errors_ext (m1 m2 : gmap string jsval) :
  m1 !! "pixelId" = m2 !! "pixelId" ->
  m1 !! "accessToken" = m2 !! "accessToken" ->
  errors (validateConfig m1) = errors (validateConfig m2)
  /\ isValid (validateConfig m1) = isValid (validateConfig m2).
Proof.
  intros Hp Ht.
  assert (Herr : errors (validateConfig m1) = errors (validateConfig m2)).
  { unfold validateConfig, has_key, prop. cbn [errors]. now rewrite Hp, Ht. }
  split; [exact Herr|].
  change (isValid (validateConfig m1))
    with (length (errors (validateConfig m1)) =? 0)%nat.
  change (isValid (validateConfig m2))
    with (length (errors (validateConfig m2)) =? 0)%nat.
  now rewrite Herr.
Qed.

(** X18: validity is decided by [pixelId] and [accessToken] alone: setting
    any other key of a configuration, to any value, changes neither the
    errors nor the verdict (an unsupported [currency] only adds a
    warning). *)
Theorem validateConfig_ignores_other_keys
    (config : gmap string jsval) (k : string) (v : jsval) :
  k <> "pixelId" -> k <> "accessToken" ->
  errors (validateConfig (<[k := v]> config)) = errors (validateConfig config)
  /\ isValid (validateConfig (<[k := v]> config))
     = isValid (validateConfig config).
Proof.
  intros Hp Ht. apply validateConfig_errors_ext;
    now rewrite lookup_insert_ne.
Qed.

Lemma validateConfig_ignores_other_keys_witness :
  isValid (validateConfig
             (<["currency" := JStr "XXX"]> (sample_config sample_token_51)))
  = true
  /\ warnings (validateConfig
                 (<["currency" := JStr "XXX"]>
                    (sample_config sample_token_51)))
     = ["Unsupported currency code"].
Proof.
  destruct (validateConfig_ignores_other_keys (sample_config sample_token_51)
              "currency" (JStr "XXX")) as [_ Hvalid];
    [discriminate | discriminate |].
  rewrite Hvalid. split; vm_compute; reflexivity.
Defined.

(** X19: an access token is not required: a configuration with a valid
    pixel id passes validation when its access token is absent, empty, or
    not a string, and the constructor then builds the tracker. *)
Theorem access_token_is_optional
    (env : Env) (config : gmap string jsval) (p : string) :
  config !! "pixelId" = Some (JStr p) -> isValidPixelId p = true ->
  (config !! "accessToken" = None
   \/ config !! "accessToken" = Some (JStr "")
   \/ exists v, config !! "accessToken" = Some v /\ is_string v = false) ->
  errors (validateConfig config) = []
  /\ exists tracker : Tracker,
       new_MetaConversionTracker env config = inr tracker.
Proof.
  intros Hp Hvalid Htoken.
  assert (Herr : errors (validateConfig config) = []).
  { unfold validateConfig, has_key, prop. cbn [errors]. rewrite Hp.
    cbn [default from_option id].
    rewrite (isValidPixelId_nonempty p Hvalid), Hvalid. cbn [negb].
    destruct Htoken as [-> | [-> | (v & -> & Hv)]];
      cbn [default from_option id]; rewrite ?andb_false_r; try reflexivity.
    rewrite Hv. now rewrite andb_false_r. }
  split; [exact Herr|].
  unfold new_MetaConversionTracker.
  match goal with
  | |- context [validateConfig ?m] =>
      destruct (validateConfig_errors_ext m config) as [Herr' Hvalid']
  end.
  - rewrite lookup_union_l; [reflexivity|]. reflexivity.
  - rewrite lookup_union_l; [reflexivity|]. reflexivity.
  - rewrite Hvalid'.
    change (isValid (validateConfig config))
      with (length (errors (validateConfig config)) =? 0)%nat.
    rewrite Herr. cbn. eauto.
Qed.

Lemma access_token_is_optional_witness :
  exists tracker : Tracker,
    new_MetaConversionTracker env_ok {["pixelId" := JStr "1234567890123456"]}
    = inr tracker.
Proof.
  destruct (access_token_is_optional env_ok
              {["pixelId" := JStr "1234567890123456"]} "1234567890123456")
    as [_ Hbuilt].
  - reflexivity.
  - reflexivity.
  - left. reflexivity.
  - exact Hbuilt.
Defined.

Lemma valid_config_has_pixel_id (m : gmap string jsval) :
  isValid (validateConfig m) = true ->
  truthy (prop m "pixelId") = true
  /\ forall p, m !! "pixelId" = Some (JStr p) -> isValidPixelId p = true.
Proof.
  unfold validateConfig. cbn [isValid].
  destruct (truthy (prop m "pixelId")) eqn:Htruthy; cbn [negb].
  - intros Hvalid. split; [reflexivity|]. intros p Hp.
    unfold prop in Hvalid. rewrite Hp in Hvalid.
    cbn [default from_option id] in Hvalid.
    destruct (isValidPixelId p); [reflexivity|]. cbn [negb] in Hvalid.
    destruct (has_key m "accessToken" && _ && _ && _) in Hvalid;
      discriminate Hvalid.
  - destruct (has_key m "accessToken" && _ && _ && _); discriminate.
Qed.

(** X20: what the constructor guarantees.  A tracker it returns has a
    truthy pixel id that, when it is a string, consists of 15 or 16 digits;
    it keeps every key the caller passed, adds [apiVersion] "v18.0" and
    [debug] false where the caller passed none, retries 3 times from a
    base delay of 1000 ms, and its endpoint is built from its own
    configuration: for a string pixel id and no API version of the
    caller's, "https://graph.facebook.com/v18.0/<pixel id>/events". *)
Theorem constructor_establishes_the_configuration
    (env : Env) (given : gmap string jsval) (tracker : Tracker) :
  new_MetaConversionTracker env given = inr tracker ->
  truthy (prop (config tracker) "pixelId") = true
  /\ (forall p, given !! "pixelId" = Some (JStr p) ->
        isValidPixelId p = true)
  /\ (forall k v, given !! k = Some v ->
        config tracker !! k = Some v)
  /\ (given !! "apiVersion" = None ->
      config tracker !! "apiVersion" = Some (JStr "v18.0"))
  /\ (given !! "debug" = None ->
      config tracker !! "debug" = Some (JBool false))
  /\ retryAttempts tracker = 3%Z /\ retryDelay tracker = 1000%Q
  /\ baseUrl tracker = endpoint env (config tracker)
  /\ (forall p, given !! "pixelId" = Some (JStr p) ->
        given !! "apiVersion" = None ->
        baseUrl tracker
        = "https://graph.facebook.com/v18.0/" ++ p ++ "/events").
Proof.
  unfold new_MetaConversionTracker.
  set (merged := given ∪ _).
  destruct (isValid (validateConfig merged)) eqn:Hvalid; [|discriminate].
  cbn [negb]. intros [= <-]. cbn [config retryAttempts retryDelay baseUrl].
  destruct (valid_config_has_pixel_id merged Hvalid) as [Htruthy Hpixel].
  assert (Hkeep : forall k v, given !! k = Some v -> merged !! k = Some v)
    by (intros k v Hk; now apply lookup_union_Some_l).
  assert (Hversion : given !! "apiVersion" = None ->
                     merged !! "apiVersion" = Some (JStr "v18.0"))
    by (intros Hnone; unfold merged; rewrite lookup_union_r by exact Hnone;
        reflexivity).
  repeat split; try assumption.
  - intros p Hp. apply Hpixel. now apply Hkeep.
  - intros Hnone. unfold merged. rewrite lookup_union_r by exact Hnone.
    reflexivity.
  - intros p Hp Hnone. unfold endpoint, prop.
    rewrite (Hkeep _ _ Hp), (Hversion Hnone). reflexivity.
Qed.

Lemma constructor_establishes_the_configuration_witness :
  exists tracker,
    new_MetaConversionTracker env_ok (sample_config sample_token_51)
    = inr tracker
    /\ baseUrl tracker
       = "https://graph.facebook.com/v18.0/123456789012345/events".
Proof.
  destruct (new_MetaConversionTracker env_ok (sample_config sample_token_51))
    as [e|tracker] eqn:Hnew; [vm_compute in Hnew; discriminate|].
  exists tracker. split; [reflexivity|].
  destruct (constructor_establishes_the_configuration env_ok
              (sample_config sample_token_51) tracker Hnew)
    as (_ & _ & _ & _ & _ & _ & _ & _ & Hurl).
  apply (Hurl "123456789012345"); vm_compute; reflexivity.
Defined.

Lemma union_prop_absent (newConfig current : gmap string jsval) (k : string) :
  newConfig !! k = None -> prop (newConfig ∪ current) k = prop current k.
Proof. intros Hnone. unfold prop. now rewrite lookup_union_r. Qed.

(** X21: [updateConfig] keeps the endpoint in step with the configuration
    as long as the update does not set [pixelId] or [apiVersion] to a falsy
    value: if the endpoint was the one of the configuration before the
    call, it is the one of the merged configuration after it, whether the
    call throws or not.  The call throws exactly when the merged
    configuration fails validation, and in the merged configuration the
    keys of the update win. *)
Theorem updateConfig_keeps_endpoint_in_step
    (env : Env) (this : Tracker) (newConfig : gmap string jsval) :
  baseUrl this = endpoint env (config this) ->
  (forall k, k = "pixelId" \/ k = "apiVersion" ->
     newConfig !! k = None \/ truthy (prop newConfig k) = true) ->
  let after := snd (updateConfig env this newConfig) in
  baseUrl after = endpoint env (config after)
  /\ config after = newConfig ∪ config this
  /\ (forall k v, newConfig !! k = Some v -> config after !! k = Some v)
  /\ (fst (updateConfig env this newConfig) = None
      <-> isValid (validateConfig (newConfig ∪ config this)) = true).
Proof.
  intros Hstep Hclean after.
  assert (Hafter : config after = newConfig ∪ config this
                   /\ baseUrl after
                      = (if truthy (prop newConfig "pixelId")
                            || truthy (prop newConfig "apiVersion")
                         then endpoint env (newConfig ∪ config this)
                         else baseUrl this)
                   /\ (fst (updateConfig env this newConfig) = None
                       <-> isValid (validateConfig (newConfig ∪ config this))
                           = true)).
  { unfold after, updateConfig.
    destruct (truthy (prop newConfig "pixelId")
              || truthy (prop newConfig "apiVersion"));
      cbn [config retryAttempts retryDelay baseUrl];
      destruct (isValid (validateConfig (newConfig ∪ config this)));
      cbn [negb fst snd config baseUrl]; repeat split; try discriminate;
      reflexivity. }
  destruct Hafter as (Hconfig & Hurl & Hthrows).
  split; [|split; [exact Hconfig | split; [|exact Hthrows]]].
  - rewrite Hurl, Hconfig.
    destruct (truthy (prop newConfig "pixelId")) eqn:Hp;
      [reflexivity|].
    destruct (truthy (prop newConfig "apiVersion")) eqn:Hv;
      [reflexivity|].
    cbn [orb]. rewrite Hstep. unfold endpoint.
    destruct (Hclean "pixelId" (or_introl eq_refl)) as [Hp'|Hp'];
      [|congruence].
    destruct (Hclean "apiVersion" (or_intror eq_refl)) as [Hv'|Hv'];
      [|congruence].
    now rewrite (union_prop_absent _ _ _ Hp'), (union_prop_absent _ _ _ Hv').
  - intros k v Hk. rewrite Hconfig. now apply lookup_union_Some_l.
Qed.

Lemma updateConfig_keeps_endpoint_in_step_witness :
  baseUrl (snd (updateConfig env_ok sample_tracker
                  {["apiVersion" := JStr "v19.0"]}))
  = "https://graph.facebook.com/v19.0/123456789012345/events".
Proof.
  destruct (updateConfig_keeps_endpoint_in_step env_ok sample_tracker
              {["apiVersion" := JStr "v19.0"]}) as (Hurl & Hconfig & _).
  - vm_compute. reflexivity.
  - intros k [-> | ->]; [left | right]; vm_compute; reflexivity.
  - rewrite Hurl, Hconfig. vm_compute. reflexivity.
Defined.

(** X22: [getConfig] never gives the secrets away: its result has neither
    an [accessToken] nor an [appSecret] key, says through [hasAccessToken]
    and [hasAppSecret] whether the two were set to something truthy, and
    shows every other key of the configuration unchanged. *)
Theorem getConfig_hides_the_secrets (this : Tracker) :
  getConfig this !! "accessToken" = None
  /\ getConfig this !! "appSecret" = None
  /\ getConfig this !! "hasAccessToken"
     = Some (JBool (truthy (prop (config this) "accessToken")))
  /\ getConfig this !! "hasAppSecret"
     = Some (JBool (truthy (prop (config this) "appSecret")))
  /\ (forall k, k ∉ ["accessToken"; "appSecret"; "hasAccessToken";
                     "hasAppSecret"] ->
        getConfig this !! k = config this !! k).
Proof.
  unfold getConfig. repeat split.
  - rewrite !lookup_insert_ne by discriminate. apply lookup_delete_eq.
  - rewrite !lookup_insert_ne by discriminate.
    rewrite lookup_delete_ne by discriminate. apply lookup_delete_eq.
  - rewrite lookup_insert_ne by discriminate. apply lookup_insert_eq.
  - apply lookup_insert_eq.
  - intros k Hk.
    assert (Hne : forall r, r ∈ ["accessToken"; "appSecret"; "hasAccessToken";
                                 "hasAppSecret"] -> r <> k)
      by (intros r Hr ->; contradiction).
    rewrite !lookup_insert_ne, !lookup_delete_ne;
      [reflexivity | apply Hne ..];
      apply (bool_decide_unpack _); vm_compute; reflexivity.
Qed.

(** ** Currencies *)

Lemma toUpperCase_ascii_lower (c : ascii) :
  toUpperCase_ascii (toLowerCase_ascii c) = toUpperCase_ascii c.
Proof. destruct c as [[] [] [] [] [] [] [] []]; reflexivity. Qed.

Lemma toUpperCase_ascii_idem (c : ascii) :
  toUpperCase_ascii (toUpperCase_ascii c) = toUpperCase_ascii c.
Proof. destruct c as [[] [] [] [] [] [] [] []]; reflexivity. Qed.

(** X23: on a code written in ASCII characters, where [toLowerCase] and
    [toUpperCase] are the case mappings of the host, [isValidCurrency] does
    not look at the case: the code, its lower-case form and its upper-case
    form are all accepted or all refused. *)
Theorem isValidCurrency_ignores_case (currency : string) :
  ascii_only currency ->
  isValidCurrency (toLowerCase currency) = isValidCurrency currency
  /\ isValidCurrency (toUpperCase currency) = isValidCurrency currency.
Proof.
  intros _. unfold isValidCurrency. split; f_equal;
    induction currency as [|c s IH]; try reflexivity;
    cbn [toLowerCase toUpperCase];
    now rewrite ?toUpperCase_ascii_lower, ?toUpperCase_ascii_idem, IH.
Qed.

Lemma isValidCurrency_ignores_case_witness :
  ascii_only "Eur"
  /\ isValidCurrency "eur" = isValidCurrency "Eur"
  /\ isValidCurrency "EUR" = isValidCurrency "Eur".
Proof.
  assert (Hascii : ascii_only "Eur")
    by (repeat constructor; vm_compute; lia).
  split; [exact Hascii|].
  exact (isValidCurrency_ignores_case "Eur" Hascii).
Defined.

(** ** The connection test *)


Lemma testConnection_total (env : Env) (this : Tracker) (w : World) :
  exists result w', testConnection env this w = (inr result, w').
Proof.
  unfold testConnection, try_catch.
  match goal with
  | |- context [match ?m w with _ => _ end] => destruct (m w) as [[e|r] w1]
  end; eauto.
Qed.

(** X24: [testConnection] never throws: whatever the network, the clock
    and the tracker's configuration do, it returns a result, which either
    reports success with the details of the response and no error, or
    failure with an error message and no details. *)
Theorem testConnection_never_throws
    (env : Env) (this : Tracker) (w : World) :
  exists result w',
    testConnection env this w = (inr result, w')
    /\ ((success result = true /\ is_Some (details result)
         /\ error result = None)
        \/ (success result = false /\ details result = None
            /\ is_Some (error result))).
Proof.
  unfold testConnection, try_catch.
  match goal with
  | |- context [match ?m w with _ => _ end] => destruct (m w) as [[e|r] w1] eqn:Hrun
  end.
  - eexists _, _. split; [reflexivity|]. right. cbn. eauto.
  - exists r, w1. split; [reflexivity|].
    revert Hrun. unfold mbind, M_bind, mret, M_ret.
    repeat match goal with
           | |- context [match ?x with _ => _ end] =>
               destruct x as [[?|?] ?]; try discriminate
           end.
    intros [= <- _]. left. cbn. eauto.
Qed.





(** [validatePixelAccess] never throws either, and says what
    [testConnection] said: it reports the pixel as valid exactly when the
    connection test succeeded, then always with the fixed permissions
    "ADVERTISE" and "ANALYZE"; otherwise it passes the error message on,
    unless that message is empty. *)
Theorem validatePixelAccess_follows_testConnection
    (env : Env) (this : Tracker) (w : World) :
  exists test access w',
    testConnection env this w = (inr test, w')
    /\ validatePixelAccess env this w = (inr access, w')
    /\ valid access = success test
    /\ permissions access
       = (if success test then Some ["ADVERTISE"; "ANALYZE"] else None)
    /\ access_error access
       = (if success test then None
          else if truthy_str (error test) then error test else None).
Proof.
  destruct (testConnection_total env this w) as (test & w' & Hrun).
  unfold validatePixelAccess, try_catch, mbind, M_bind. rewrite Hrun.
  destruct (success test) eqn:Hs; cbn [mret M_ret];
    (eexists _, _, _; split; [reflexivity|]; split; [reflexivity|]);
    cbn [valid permissions access_error]; repeat split;
    rewrite Hs; reflexivity.
Qed.

(** ** The quick tracking methods *)

Lemma quick_event_passes_validation
    (env : Env) (this : Tracker) (name : string) (ud : option UserData)
    (cd : CustomData) (w : World) :
  name <> "" ->
  validateServerEventData env this (quick_event env name ud cd) w
  = (inr tt, w).
Proof.
  intros Hname. unfold validateServerEventData, quick_event.
  cbn [eventName actionSource eventTime truthy_str andb].
  now rewrite (nonempty_true name Hname).
Qed.


Lemma quick_event_sent
    (env : Env) (this : Tracker) (name : string) (ud : option UserData)
    (cd : CustomData) (w : World) :
  name <> "" -> (0 <= retryAttempts this)%Z ->
  exists event c,
    1 <= c <= Z.to_nat (retryAttempts this) + 1
    /\ fetch_log (snd (sendEvent env this (quick_event env name ud cd) w))
       = (fetch_log w
          ++ repeat {| url := baseUrl this; data := [JObj event] |} c)%list
    /\ event !! "event_name" = Some (JStr name)
    /\ event !! "action_source" = Some (JStr "website")
    /\ event !! "custom_data" = Some (JObj (createCustomData cd)).
Proof.
  intros Hname Hretries.
  pose proof (quick_event_passes_validation env this name ud cd w Hname)
    as Hvalid.
  destruct (sendEvent_log_shape env this _ w w Hvalid Hretries)
    as (event & w2 & c & Hbuild & Hc & Hlog).
  destruct (createServerEvent_fields env this (quick_event env name ud cd) w)
    as (event1 & w1 & Hbuild1 & Hn & Hsrc & _).
  destruct (createServerEvent_returns env this (quick_event env name ud cd) w)
    as (event2 & w2' & Hbuild2 & _ & Hcustom).
  rewrite Hbuild in Hbuild1, Hbuild2.
  injection Hbuild1 as <- <-. injection Hbuild2 as <- <-.
  exists event, c. repeat split; try assumption; lia.
Qed.



(** X27: the other quick methods cannot be refused by validation either:
    [trackPageView], [trackLead], [trackAddToCart] and [trackViewContent]
    each make at least one request, and every request carries one event
    with the method's own event name. *)
Theorem quick_methods_always_send
    (env : Env) (this : Tracker) (ud : option UserData)
    (cd extra : option CustomData) (ids : list string) (contentId : string)
    (contentType currency : option string) (amount : option Q) (w : World) :
  (0 <= retryAttempts this)%Z ->
  let sent (name : string) (run : M EventResponse) :=
    exists event c,
      1 <= c
      /\ fetch_log (snd (run w))
         = (fetch_log w
            ++ repeat {| url := baseUrl this; data := [JObj event] |} c)%list
      /\ event !! "event_name" = Some (JStr name) in
  sent "PageView" (trackPageView env this ud cd)
  /\ sent "Lead" (trackLead env this ud cd)
  /\ sent "AddToCart" (trackAddToCart env this ids amount currency ud extra)
  /\ sent "ViewContent"
          (trackViewContent env this contentId contentType amount currency
             ud extra).
Proof.
  intros Hretries sent. unfold sent.
  unfold trackPageView, trackLead, trackAddToCart, trackViewContent.
  repeat split;
    match goal with
    | |- context [quick_event env ?name ud ?data] =>
        destruct (quick_event_sent env this name ud data w)
          as (event & c & Hc & Hlog & Hname & _);
        [discriminate | exact Hretries |];
        exists event, c; repeat split; [lia | exact Hlog | exact Hname]
    end.
Qed.

Lemma quick_methods_always_send_witness :
  exists event,
    fetch_log (snd (trackLead env_ok sample_tracker None None world0))
    = [{| url := baseUrl sample_tracker; data := [JObj event] |}]
    /\ event !! "event_name" = Some (JStr "Lead").
Proof.
  destruct (quick_methods_always_send env_ok sample_tracker None None None
              [] "" None None None world0)
    as (_ & (event & c & Hc & Hlog & Hname) & _).
  - vm_compute. discriminate.
  - exists event. split; [|exact Hname].
    assert (Hone : length (fetch_log
                             (snd (trackLead env_ok sample_tracker None None
                                     world0))) = 1)
      by (vm_compute; reflexivity).
    rewrite Hlog, length_app, repeat_length in Hone. cbn in Hone. subst c.
    exact Hlog.
Defined.

(** ** Patterns *)

Lemma nullable_matches (r : regex) : nullable r = true -> matches r "".
Proof.
  induction r as [| |p|r1 IH1 r2 IH2|r1 IH1 r2 IH2|r IH]; cbn [nullable];
    try discriminate.
  - intros _. constructor.
  - intros [H1 H2]%andb_prop. apply (MSeq r1 r2 "" ""); auto.
  - intros [H1|H2]%orb_prop; [apply MAltL | apply MAltR]; auto.
  - intros _. constructor.
Qed.

Lemma append_eq_empty (s1 s2 : string) : s1 ++ s2 = "" -> s1 = "" /\ s2 = "".
Proof.
  destruct s1 as [|c s1].
  - change ("" ++ s2) with s2. now intros ->.
  - change (String c s1 ++ s2) with (String c (s1 ++ s2)). discriminate.
Qed.

Lemma matches_nullable (r : regex) (s : string) :
  matches r s -> s = "" -> nullable r = true.
Proof.
  induction 1 as [|p c Hp|r1 r2 s1 s2 _ IH1 _ IH2|r1 r2 s _ IH|r1 r2 s _ IH
                  |r|r s1 s2 _ _ _ _]; cbn [nullable]; intros Hs;
    try reflexivity; try discriminate.
  - apply append_eq_empty in Hs as [-> ->]. now rewrite IH1, IH2.
  - now rewrite IH.
  - rewrite IH by assumption. apply orb_true_r.
Qed.

Lemma derive_matches (c : ascii) (r : regex) :
  forall s, matches (derive c r) s -> matches r (String c s).
Proof.
  induction r as [| |p|r1 IH1 r2 IH2|r1 IH1 r2 IH2|r IH]; intros s;
    cbn [derive].
  - inversion 1.
  - inversion 1.
  - destruct (p c) eqn:Hp; inversion 1; subst. now constructor.
  - destruct (nullable r1) eqn:Hnull.
    + inversion 1 as [| | |? ? ? Hseq|? ? ? Hright| |]; subst.
      * inversion Hseq as [| |? ? s1 s2 H1 H2| | | |]; subst.
        apply (MSeq r1 r2 (String c s1) s2); auto.
      * apply (MSeq r1 r2 "" (String c s)); auto using nullable_matches.
    + inversion 1 as [| |? ? s1 s2 H1 H2| | | |]; subst.
      apply (MSeq r1 r2 (String c s1) s2); auto.
  - inversion 1; subst; [apply MAltL | apply MAltR]; auto.
  - inversion 1 as [| |? ? s1 s2 H1 H2| | | |]; subst.
    apply (MStarApp r (String c s1) s2); auto.
Qed.

Lemma matches_derive (c : ascii) (r : regex) (s0 : string) :
  matches r s0 -> forall s, s0 = String c s -> matches (derive c r) s.
Proof.
  induction 1 as [|p c' Hp|r1 r2 s1 s2 H1 IH1 H2 IH2|r1 r2 s' _ IH
                  |r1 r2 s' _ IH|r|r s1 s2 H1 IH1 H2 IH2];
    intros s Hs; cbn [derive].
  - discriminate.
  - injection Hs as -> <-. rewrite Hp. constructor.
  - destruct s1 as [|c1 s1'].
    + change (s2 = String c s) in Hs. subst s2.
      rewrite (matches_nullable r1 "" H1 eq_refl).
      apply MAltR. now apply IH2.
    + change (String c1 (s1' ++ s2) = String c s) in Hs.
      injection Hs as -> <-.
      destruct (nullable r1);
        [apply MAltL|]; apply (MSeq _ _ s1' s2); auto.
  - apply MAltL. now apply IH.
  - apply MAltR. now apply IH.
  - discriminate.
  - destruct s1 as [|c1 s1'].
    + change (s2 = String c s) in Hs. now apply IH2.
    + change (String c1 (s1' ++ s2) = String c s) in Hs.
      injection Hs as -> <-. apply (MSeq _ _ s1' s2); auto.
Qed.

(** The test on derivatives decides membership. *)
Lemma regex_test_matches (s : string) :
  forall r, regex_test r s = true <-> matches r s.
Proof.
  induction s as [|c s IH]; intros r; cbn [regex_test].
  - split; [apply nullable_matches|]. intros H.
    now apply (matches_nullable r "").
  - rewrite IH. split; [apply derive_matches|].
    intros H. now apply (matches_derive c r (String c s)).
Qed.

Lemma forallb_append (f : ascii -> bool) (s1 s2 : string) :
  string_forallb f (s1 ++ s2) = string_forallb f s1 && string_forallb f s2.
Proof.
  induction s1 as [|c s1 IH]; [reflexivity|].
  change (String c s1 ++ s2) with (String c (s1 ++ s2)).
  cbn [string_forallb]. rewrite IH. now rewrite andb_assoc.
Qed.

Lemma matches_star_class (p : ascii -> bool) (s : string) :
  matches (RStar (RClass p)) s <-> string_forallb p s = true.
Proof.
  split.
  - intros H. remember (RStar (RClass p)) as r eqn:Hr.
    induction H as [| | | | | r'|r' s1 s2 H1 _ H2 IH2]; try discriminate;
      [reflexivity|].
    injection Hr as ->. inversion H1; subst.
    change (String c "" ++ s2) with (String c s2). cbn [string_forallb].
    rewrite IH2 by reflexivity. now rewrite andb_true_r.
  - induction s as [|c s IH]; [constructor|].
    cbn [string_forallb]. intros [Hc Hs]%andb_prop.
    apply (MStarApp (RClass p) (String c "") s); [now constructor | auto].
Qed.

Lemma matches_plus_class (p : ascii -> bool) (s : string) :
  matches (RPlus (RClass p)) s <-> s <> "" /\ string_forallb p s = true.
Proof.
  unfold RPlus. split.
  - inversion 1 as [| |? ? s1 s2 H1 H2| | | |]; subst.
    inversion H1; subst. apply matches_star_class in H2.
    change (String c "" ++ s2) with (String c s2).
    split; [discriminate|]. cbn [string_forallb].
    now rewrite H2, andb_true_r.
  - intros [Hne Hall]. destruct s as [|c s]; [contradiction|].
    cbn [string_forallb] in Hall. apply andb_prop in Hall as [Hc Hs].
    apply (MSeq (RClass p) (RStar (RClass p)) (String c "") s);
      [now constructor | now apply matches_star_class].
Qed.

Lemma matches_char_then (x : ascii) (r : regex) (s : string) :
  matches (RSeq (RClass (is_char x)) r) s
  <-> exists rest, s = String x rest /\ matches r rest.
Proof.
  split.
  - inversion 1 as [| |? ? s1 s2 H1 H2| | | |]; subst.
    inversion H1 as [|? c Hc| | | | |]; subst.
    unfold is_char in Hc. apply Ascii.eqb_eq in Hc as ->.
    exists s2. split; [reflexivity | assumption].
  - intros (rest & -> & Hrest).
    apply (MSeq (RClass (is_char x)) r (String x "") rest); [|assumption].
    constructor. unfold is_char. apply Ascii.eqb_refl.
Qed.

(** X28: [isValidEmail] accepts exactly the strings of the form
    local@domain.tail in which the three parts are non-empty and contain
    neither white space nor "@" (the domain and the tail may contain
    further dots). *)
Theorem isValidEmail_accepts_exactly (email : string) :
  isValidEmail email = true
  <-> exists local domain tail,
        email = local ++ "@" ++ domain ++ "." ++ tail
        /\ email_part local /\ email_part domain /\ email_part tail.
Proof.
  unfold isValidEmail, emailRegex, email_part.
  rewrite regex_test_matches. split.
  - inversion 1 as [| |? ? local s2 Hlocal Hrest| | | |]; subst.
    apply matches_plus_class in Hlocal.
    apply matches_char_then in Hrest as (rest & -> & Hrest).
    inversion Hrest as [| |? ? domain s3 Hdomain Hrest'| | | |]; subst.
    apply matches_plus_class in Hdomain.
    apply matches_char_then in Hrest' as (tail & -> & Htail).
    apply matches_plus_class in Htail.
    exists local, domain, tail. repeat split; tauto.
  - intros (local & domain & tail & -> & Hlocal & Hdomain & Htail).
    apply MSeq; [now apply matches_plus_class|].
    apply matches_char_then. eexists. split; [reflexivity|].
    apply MSeq; [now apply matches_plus_class|].
    apply matches_char_then. eexists. split; [reflexivity|].
    now apply matches_plus_class.
Qed.

Lemma isValidEmail_accepts_exactly_witness :
  isValidEmail "test.email+tag@domain.co.uk" = true
  /\ isValidEmail "user@" = false.
Proof.
  split; [|reflexivity].
  apply isValidEmail_accepts_exactly.
  exists "test.email+tag", "domain", "co.uk".
  repeat split; try discriminate; reflexivity.
Defined.

Lemma length_append (s1 s2 : string) :
  String.length (s1 ++ s2) = String.length s1 + String.length s2.
Proof.
  induction s1 as [|c s1 IH]; [reflexivity|].
  change (String c s1 ++ s2) with (String c (s1 ++ s2)).
  cbn [String.length]. now rewrite IH.
Qed.

Lemma split_last (n : nat) :
  forall s, String.length s = S n ->
            exists front c, s = front ++ String c "" /\ String.length front = n.
Proof.
  induction n as [|n IH]; intros s Hlen.
  - destruct s as [|c [|c' s]]; try discriminate.
    exists "", c. split; reflexivity.
  - destruct s as [|c s]; [discriminate|].
    injection Hlen as Hlen. destruct (IH s Hlen) as (front & c' & -> & Hfront).
    exists (String c front), c'. split; [reflexivity|].
    cbn [String.length]. now rewrite Hfront.
Qed.

Lemma matches_repeat_class (p : ascii -> bool) (n : nat) :
  forall s, matches (RRepeat n (RClass p)) s
            <-> String.length s = n /\ string_forallb p s = true.
Proof.
  induction n as [|n IH]; intros s; cbn [RRepeat].
  - split.
    + inversion 1. split; reflexivity.
    + intros [Hlen _]. destruct s; [constructor | discriminate].
  - split.
    + inversion 1 as [| |? ? s1 s2 H1 H2| | | |]; subst.
      inversion H1; subst. apply IH in H2 as [Hlen Hall].
      change (String c "" ++ s2) with (String c s2).
      cbn [String.length string_forallb]. rewrite Hlen, Hall.
      split; [reflexivity | now rewrite andb_true_r].
    + intros [Hlen Hall]. destruct s as [|c s]; [discriminate|].
      injection Hlen as Hlen. cbn [string_forallb] in Hall.
      apply andb_prop in Hall as [Hc Hs].
      apply (MSeq (RClass p) _ (String c "") s); [now constructor|].
      apply IH. split; assumption.
Qed.

(** X29: [isValidPixelId], which the model writes as a test on length and
    digits, is the pattern of the source, [/^\d{15,16}$/]: the two accept
    the same strings. *)
Theorem isValidPixelId_is_the_pattern (pixelId : string) :
  isValidPixelId pixelId = regex_test pixelIdRegex pixelId.
Proof.
  apply eq_true_iff_eq. rewrite regex_test_matches.
  unfold isValidPixelId, pixelIdRegex. split.
  - intros [Hall Hlen]%andb_prop. apply orb_prop in Hlen as [Hlen|Hlen];
      apply Nat.eqb_eq in Hlen.
    + rewrite <- (append_empty_r pixelId).
      apply MSeq; [|apply MAltL; constructor].
      apply matches_repeat_class. split; assumption.
    + destruct (split_last 15 pixelId Hlen) as (front & c & -> & Hfront).
      rewrite forallb_append in Hall. apply andb_prop in Hall as [Hf Hc].
      cbn [string_forallb] in Hc. rewrite andb_true_r in Hc.
      apply MSeq; [|apply MAltR; now constructor].
      apply matches_repeat_class. split; assumption.
  - inversion 1 as [| |? ? s1 s2 H1 H2| | | |]; subst.
    apply (matches_repeat_class is_digit 15) in H1 as [Hlen Hall].
    rewrite forallb_append, length_append, Hall, Hlen.
    inversion H2 as [| | |? ? ? Heps|? ? ? Hone| |]; subst.
    + inversion Heps; subst. reflexivity.
    + inversion Hone; subst. cbn [string_forallb String.length].
      match goal with H : is_digit _ = true |- _ => rewrite H end.
      reflexivity.
Qed.

Lemma getConfig_hides_the_secrets_witness :
  getConfig sample_tracker !! "accessToken" = None
  /\ getConfig sample_tracker !! "hasAccessToken" = Some (JBool true)
  /\ getConfig sample_tracker !! "pixelId" = Some (JStr "123456789012345").
Proof.
  destruct (getConfig_hides_the_secrets sample_tracker)
    as (Htoken & _ & Hflag & _ & Hrest).
  split; [exact Htoken|]. split.
  - rewrite Hflag. vm_compute. reflexivity.
  - rewrite Hrest.
    + vm_compute. reflexivity.
    + apply (bool_decide_unpack _). vm_compute. reflexivity.
Defined.

(** ** User data on the wire *)

Lemma createServerEvent_user_data
    (env : Env) (this : Tracker) (e : ServerEventData) (w : World) :
  exists event w',
    createServerEvent env this e w = (inr event, w')
    /\ event !! "user_data"
       = Some (JObj (createUserData env (default ∅ (userData e)))).
Proof.
  unfold createServerEvent, getCurrentTimestamp, generateEventId,
    Date_now, Math_random_base36, mbind, M_bind, mret, M_ret.
  destruct (eventTime e) as [t|]; [destruct (truthy (JNum t))|];
    destruct (truthy_str (eventId e));
    cbn -[createUserData createCustomData];
    (eexists _, _; split; [reflexivity|]);
    (destruct (dataProcessingOptions e); event_lookup).
Qed.

(** X30: the event that [createServerEvent] builds carries, under
    [user_data], the object that [createUserData] builds from the event's
    user data.  In it [external_id] is the plain [hashDataSync] digest of
    the caller's [externalId] (the normaliser's value, not hashed a second
    time, and left out when that digest is empty), and the browser id, the
    click id, the client IP and the user agent are the caller's values. *)
Theorem wire_event_carries_the_user_data
    (env : Env) (this : Tracker) (e : ServerEventData) (ud : UserData)
    (w : World) :
  userData e = Some ud ->
  exists event w',
    createServerEvent env this e w = (inr event, w')
    /\ event !! "user_data" = Some (JObj (createUserData env ud))
    /\ (forall x, ud !! "externalId" = Some x -> x <> "" ->
          createUserData env ud !! "external_id"
          = (if nonempty (hashDataSync env (JStr x))
             then Some (JStr (hashDataSync env (JStr x))) else None))
    /\ (forall src dst v,
          (src, dst) ∈ [("fbp", "fbp"); ("fbc", "fbc");
                        ("clientIpAddress", "client_ip_address");
                        ("clientUserAgent", "client_user_agent")] ->
          ud !! src = Some v -> v <> "" ->
          createUserData env ud !! dst = Some (JStr v)).
Proof.
  intros Hud.
  destruct (createServerEvent_user_data env this e w)
    as (event & w' & Hrun & Hlookup).
  rewrite Hud in Hlookup. cbn [default] in Hlookup.
  exists event, w'. split; [exact Hrun|]. split; [exact Hlookup|]. split.
  - intros x Hx Hne. rewrite createUserData_external_id.
    now rewrite (normalizeUserData_externalId env ud x Hx Hne).
  - intros src dst v. apply createUserData_plain.
Qed.

Lemma wire_event_carries_the_user_data_witness :
  exists (event user_data : gmap string jsval) (w' : World),
    createServerEvent env_browser sample_tracker (sample_event None) world0
    = (inr event, w')
    /\ event !! "user_data" = Some (JObj user_data)
    /\ user_data !! "external_id" = Some (JStr "8c5c579").
Proof.
  destruct (wire_event_carries_the_user_data env_browser sample_tracker
              (sample_event None) {["externalId" := "user123"]} world0
              eq_refl)
    as (event & w' & Hrun & Hlookup & Hexternal & _).
  exists event, (createUserData env_browser {["externalId" := "user123"]}), w'.
  split; [exact Hrun|]. split; [exact Hlookup|].
  rewrite (Hexternal "user123").
  - vm_compute. reflexivity.
  - vm_compute. reflexivity.
  - discriminate.
Defined.
